(** * Home.tsx: canvas history, voice capture and error display

    A shallow embedding of the logic of [src/Home.tsx] (the component
    with voice integration, lines 490-1060) and the properties of its
    undo/redo history, its audio pipeline, its transcript merge and its
    error parsing.

    Conventions.
    - A JavaScript string is the list of its UTF-16 code units.
    - React state cells ([useState]) and refs ([useRef]) are record
      fields; a handler is a function on the record.  Handlers run one
      after the other on the event loop, so a handler reads the cells as
      left by the previous one.
    - An [async] handler is cut at each [await]: one function for the
      part before it, one for the continuation, which takes the outcome
      of the awaited call as an argument.
    - What the browser or a remote service decides (a decoded image, the
      outcome of a request, a fresh object) is an argument. *)

From Stdlib Require Import ZArith NArith QArith Qabs Qround String Ascii List Lia Bool.
From stdpp Require Import base option list gmap sets.
Import ListNotations.

Close Scope Q_scope.
Local Open Scope Z_scope.
Local Open Scope nat_scope.

#[local] Set Warnings "-clear-no-such-hyp".

(* ===================================================================== *)
(** * Part I. Definitions                                                 *)
(* ===================================================================== *)

(** ** JavaScript values *)

Module JS.

(** A string: its UTF-16 code units. *)
Definition jsstring : Type := list N.

(** The code units of a literal. *)
Definition js (s : string) : jsstring :=
  map N_of_ascii (list_ascii_of_string s).

(** [s.length > 0], also the truthiness of a string. *)
Definition nonempty (s : jsstring) : bool :=
  match s with [] => false | _ :: _ => true end.

(** [s.slice(-1)]: the last code unit as a string, [''] on ['']. *)
Definition slice_last (s : jsstring) : jsstring :=
  match last s with Some c => [c] | None => [] end.

(** [s === t] on strings. *)
Definition str_eqb (s t : jsstring) : bool := bool_decide (s = t).

(** [s.startsWith(p)], returning what follows [p]. *)
Fixpoint strip_prefix (p s : jsstring) : option jsstring :=
  match p, s with
  | [], _ => Some s
  | _ :: _, [] => None
  | a :: p', b :: s' => if (a =? b)%N then strip_prefix p' s' else None
  end.

(** [s.includes(p)]. *)
Fixpoint includes (p s : jsstring) : bool :=
  match strip_prefix p s with
  | Some _ => true
  | None => match s with [] => false | _ :: s' => includes p s' end
  end.

(** A number: a finite value, or one of the three special ones. *)
Inductive jsnumber : Type :=
| Finite (q : Q)
| NaN
| PosInf
| NegInf.

(** [x * 32768].  The factor is a power of two and the samples are
    32-bit floats widened to 64 bits, so the product is exact. *)
Definition times_32768 (x : jsnumber) : jsnumber :=
  match x with
  | Finite q => Finite (q * 32768)%Q
  | NaN => NaN
  | PosInf => PosInf
  | NegInf => NegInf
  end.

(** The integer part of a rational, rounding toward zero. *)
Definition truncate (q : Q) : Z := Z.quot (Qnum q) (Z.pos (Qden q)).

(** ToInt16 of ECMAScript, the conversion applied by a store into an
    [Int16Array]: NaN and the infinities give 0, a finite number is
    truncated toward zero, reduced modulo 2^16 and read as signed. *)
Definition ToInt16 (x : jsnumber) : Z :=
  match x with
  | Finite q =>
      let int := truncate q in
      let int16bit := (int mod 65536)%Z in
      if (32768 <=? int16bit)%Z then (int16bit - 65536)%Z else int16bit
  | NaN | PosInf | NegInf => 0%Z
  end.

End JS.
Import JS.

(** ** Audio frames: [processor.onaudioprocess] (lines 617-632) *)

(** One sample: [int16[i] = inputData[i] * 32768]. *)
Definition quantize (sample : jsnumber) : Z := ToInt16 (times_32768 sample).

(** The loop over the input buffer. *)
Definition onaudioprocess_int16 (inputData : list jsnumber) : list Z :=
  map quantize inputData.

(** The quantizer of the specification: [round(sample * 32768)],
    clamped to the 16-bit signed range. *)
Definition round_half_up (q : Q) : Z := Qfloor (q + (1 # 2))%Q.

Definition clamp_int16 (z : Z) : Z := Z.max (-32768) (Z.min 32767 z).

Definition quantize_spec (sample : Q) : Z :=
  clamp_int16 (round_half_up (sample * 32768)%Q).

(** ** Transcript merge: [onmessage] (lines 637-649) *)

Definition SPACE : N := 32%N.

(** The updater passed to [setPrompt]. *)
Definition mergeFragment (prev text : jsstring) : jsstring :=
  let lastChar := slice_last prev in
  let space :=
    if nonempty prev && negb (str_eqb lastChar [SPACE]) then [SPACE] else [] in
  prev ++ space ++ text.

(** [message.serverContent?.inputTranscription] and its [text], either
    of which may be absent. *)
Record LiveServerMessage : Type := {
  inputTranscription : option (option jsstring)
}.

(** The prompt after [onmessage]. *)
Definition onmessage (message : LiveServerMessage) (prompt : jsstring) : jsstring :=
  match inputTranscription message with
  | Some (Some text) => if nonempty text then mergeFragment prompt text else prompt
  | Some None | None => prompt
  end.

(** White space in the sense of ECMAScript ([\s]): the reading of
    "whitespace" in the specification of the merge. *)
Definition is_whitespace (c : N) : bool :=
  existsb (N.eqb c)
    [9; 10; 11; 12; 13; 32; 160; 5760; 8232; 8233; 8239; 8287; 12288; 65279]%N
  || ((8192 <=? c) && (c <=? 8202))%N.

Definition ends_with_whitespace (s : jsstring) : bool :=
  match last s with Some c => is_whitespace c | None => false end.

(** The merge of the specification: one space unless the buffer is empty
    or ends with whitespace. *)
Definition mergeFragment_spec (buffer fragment : jsstring) : jsstring :=
  buffer
  ++ (if nonempty buffer && negb (ends_with_whitespace buffer) then [SPACE] else [])
  ++ fragment.

(** ** JSON values and [JSON.parse] *)

Module Json.

#[local] Unset Elimination Schemes.
Inductive json : Type :=
| JNull
| JBool (b : bool)
| JNum (q : Q)
| JStr (s : jsstring)
| JArr (items : list json)
| JObj (members : list (jsstring * json)).
#[local] Set Elimination Schemes.

(** [JNum q] carries the value the literal denotes.  The number read by
    [JSON.parse] is its nearest 64-bit float (ties to even), which is
    zero exactly when the magnitude is at most 2^-1075; no literal
    denotes NaN.  So a number is truthy when it exceeds that bound. *)
Definition number_truthy (q : Q) : bool :=
  negb (Qle_bool (Qabs q) (1 # (2 ^ 1075)%positive)).

(** ToBoolean. *)
Definition truthy (v : json) : bool :=
  match v with
  | JNull => false
  | JBool b => b
  | JNum q => number_truthy q
  | JStr s => nonempty s
  | JArr _ | JObj _ => true
  end.

(** The value of a property of an object read by [JSON.parse]: of two
    members with one name the later one stays. *)
Fixpoint get_member (name : jsstring) (members : list (jsstring * json)) : option json :=
  match members with
  | [] => None
  | (k, v) :: rest =>
      match get_member name rest with
      | Some w => Some w
      | None => if str_eqb k name then Some v else None
      end
  end.

Definition cons_fst {A B : Type} (a : A) (r : option (list A * B)) : option (list A * B) :=
  match r with
  | Some (l, rest) => Some (a :: l, rest)
  | None => None
  end.

Definition is_json_ws (c : N) : bool :=
  ((c =? 32) || (c =? 9) || (c =? 10) || (c =? 13))%N.

Fixpoint skip_ws (s : jsstring) : jsstring :=
  match s with
  | c :: r => if is_json_ws c then skip_ws r else s
  | [] => []
  end.

Definition is_digit (c : N) : bool := ((48 <=? c) && (c <=? 57))%N.

Definition hex_digit (c : N) : option N :=
  if is_digit c then Some (c - 48)%N
  else if ((97 <=? c) && (c <=? 102))%N then Some (c - 87)%N
  else if ((65 <=? c) && (c <=? 70))%N then Some (c - 55)%N
  else None.

Definition hex4 (a b c d : N) : option N :=
  match hex_digit a, hex_digit b, hex_digit c, hex_digit d with
  | Some x, Some y, Some z, Some w => Some (((x * 16 + y) * 16 + z) * 16 + w)%N
  | _, _, _, _ => None
  end.

(** The character an escape stands for: the eight single-letter ones. *)
Definition escape (e : N) : option N :=
  if (e =? 34)%N then Some 34%N
  else if (e =? 92)%N then Some 92%N
  else if (e =? 47)%N then Some 47%N
  else if (e =? 98)%N then Some 8%N
  else if (e =? 102)%N then Some 12%N
  else if (e =? 110)%N then Some 10%N
  else if (e =? 114)%N then Some 13%N
  else if (e =? 116)%N then Some 9%N
  else None.

(** The characters of a string literal, after its opening quote. *)
Fixpoint parse_chars (s : jsstring) : option (jsstring * jsstring) :=
  match s with
  | [] => None
  | c :: r =>
      if (c =? 34)%N then Some ([], r)
      else if (c =? 92)%N then
        match r with
        | [] => None
        | e :: r' =>
            if (e =? 117)%N then
              match r' with
              | h1 :: h2 :: h3 :: h4 :: r'' =>
                  match hex4 h1 h2 h3 h4 with
                  | Some u => cons_fst u (parse_chars r'')
                  | None => None
                  end
              | _ => None
              end
            else
              match escape e with
              | Some x => cons_fst x (parse_chars r')
              | None => None
              end
        end
      else if (c <? 32)%N then None
      else cons_fst c (parse_chars r)
  end.

(** A run of decimal digits: its value, its length, the rest. *)
Fixpoint digits (acc : Z) (n : nat) (s : jsstring) : Z * nat * jsstring :=
  match s with
  | c :: r =>
      if is_digit c then digits (acc * 10 + Z.of_N (c - 48))%Z (S n) r
      else (acc, n, s)
  | [] => (acc, n, s)
  end.

(** [m * 10^e]. *)
Definition decimal (m e : Z) : Q :=
  match e with
  | Z.neg p => m # (10 ^ p)%positive
  | _ => inject_Z (m * 10 ^ e)%Z
  end.

(** The fraction of a number, after the integer part [m]: the mantissa
    with the fraction's digits and (minus) their count. *)
Definition parse_fraction (m : Z) (s : jsstring) : option (Z * Z * jsstring) :=
  match s with
  | 46%N :: r =>
      match digits m 0 r with
      | (_, O, _) => None
      | (m', n, r') => Some (m', (- Z.of_nat n)%Z, r')
      end
  | _ => Some (m, 0%Z, s)
  end.

(** The exponent of a number. *)
Definition parse_exponent (s : jsstring) : option (Z * jsstring) :=
  match s with
  | c :: r =>
      if ((c =? 101) || (c =? 69))%N then
        let '(neg, r1) :=
          match r with
          | 45%N :: r1 => (true, r1)
          | 43%N :: r1 => (false, r1)
          | _ => (false, r)
          end in
        match digits 0 0 r1 with
        | (_, O, _) => None
        | (x, _, r2) => Some (if neg then (- x)%Z else x, r2)
        end
      else Some (0%Z, s)
  | [] => Some (0%Z, s)
  end.

(** A number, after its optional sign: no leading zero before other
    digits of the integer part. *)
Definition parse_unsigned (s : jsstring) : option (Q * jsstring) :=
  match s with
  | c :: r =>
      if is_digit c then
        let '(m, _, r1) := if (c =? 48)%N then (0%Z, 1, r) else digits 0 0 s in
        match parse_fraction m r1 with
        | None => None
        | Some (m', e1, r2) =>
            match parse_exponent r2 with
            | None => None
            | Some (e2, r3) => Some (decimal m' (e1 + e2), r3)
            end
        end
      else None
  | [] => None
  end.

Definition parse_number (s : jsstring) : option (Q * jsstring) :=
  match s with
  | 45%N :: r =>
      match parse_unsigned r with
      | Some (q, r') => Some ((- q)%Q, r')
      | None => None
      end
  | _ => parse_unsigned s
  end.

Section Containers.

(** The parser of one value, at the nesting depth below. *)
Variable parse_value : jsstring -> option (json * jsstring).

(** The elements of an array, after the bracket and a first check
    that it is not empty. *)
Fixpoint parse_elements (fuel : nat) (s : jsstring) : option (list json * jsstring) :=
  match fuel with
  | O => None
  | S fuel' =>
      match parse_value s with
      | None => None
      | Some (v, r) =>
          match skip_ws r with
          | c :: r' =>
              if (c =? 44)%N then cons_fst v (parse_elements fuel' r')
              else if (c =? 93)%N then Some ([v], r')
              else None
          | [] => None
          end
      end
  end.

(** The members of an object, likewise. *)
Fixpoint parse_members (fuel : nat) (s : jsstring)
  : option (list (jsstring * json) * jsstring) :=
  match fuel with
  | O => None
  | S fuel' =>
      match skip_ws s with
      | 34%N :: r =>
          match parse_chars r with
          | None => None
          | Some (k, r1) =>
              match skip_ws r1 with
              | 58%N :: r2 =>
                  match parse_value r2 with
                  | None => None
                  | Some (v, r3) =>
                      match skip_ws r3 with
                      | c :: r4 =>
                          if (c =? 44)%N then cons_fst (k, v) (parse_members fuel' r4)
                          else if (c =? 125)%N then Some ([(k, v)], r4)
                          else None
                      | [] => None
                      end
                  end
              | _ => None
              end
          end
      | _ => None
      end
  end.

End Containers.

(** One value, white space before it skipped.  Every recursive call is
    on a strictly shorter text, so fuel above the length of the text is
    never used up. *)
Fixpoint parse_value (fuel : nat) (s : jsstring) : option (json * jsstring) :=
  match fuel with
  | O => None
  | S fuel' =>
      match skip_ws s with
      | [] => None
      | c :: r =>
          if (c =? 123)%N then
            match skip_ws r with
            | 125%N :: r' => Some (JObj [], r')
            | _ =>
                match parse_members (parse_value fuel') fuel' r with
                | Some (ms, r') => Some (JObj ms, r')
                | None => None
                end
            end
          else if (c =? 91)%N then
            match skip_ws r with
            | 93%N :: r' => Some (JArr [], r')
            | _ =>
                match parse_elements (parse_value fuel') fuel' r with
                | Some (vs, r') => Some (JArr vs, r')
                | None => None
                end
            end
          else if (c =? 34)%N then
            match parse_chars r with
            | Some (str, r') => Some (JStr str, r')
            | None => None
            end
          else
            match strip_prefix (js "true") (c :: r) with
            | Some r' => Some (JBool true, r')
            | None =>
                match strip_prefix (js "false") (c :: r) with
                | Some r' => Some (JBool false, r')
                | None =>
                    match strip_prefix (js "null") (c :: r) with
                    | Some r' => Some (JNull, r')
                    | None =>
                        match parse_number (c :: r) with
                        | Some (q, r') => Some (JNum q, r')
                        | None => None
                        end
                    end
                end
            end
      end
  end.

(** [JSON.parse(text)]: [None] stands for the SyntaxError it throws. *)
Definition JSON_parse (text : jsstring) : option json :=
  match parse_value (S (length text)) text with
  | Some (v, r) => match skip_ws r with [] => Some v | _ :: _ => None end
  | None => None
  end.

End Json.
Import Json.

(** ** [parseError] (lines 526-536) *)

Definition QUOTE : N := 34%N.
Definition RBRACE : N := 125%N.

(** The literal head of the pattern: an opening brace, the word error
    in double quotes, a colon.  The pattern then has a greedy group of
    any characters and a closing brace. *)
Definition error_token : jsstring := js "{" ++ [QUOTE] ++ js "error" ++ [QUOTE] ++ js ":".

(** [.] matches every code unit but the four line terminators. *)
Definition line_terminator (c : N) : bool :=
  ((c =? 10) || (c =? 13) || (c =? 8232) || (c =? 8233))%N.

(** The longest run that the group can take: up to the end of the line. *)
Fixpoint take_line (s : jsstring) : jsstring :=
  match s with
  | [] => []
  | c :: r => if line_terminator c then [] else c :: take_line r
  end.

(** What the greedy group keeps when a closing brace must follow it:
    everything before the last brace of the run. *)
Fixpoint before_last_brace (l : jsstring) : option jsstring :=
  match l with
  | [] => None
  | c :: r =>
      match before_last_brace r with
      | Some p => Some (c :: p)
      | None => if (c =? RBRACE)%N then Some [] else None
      end
  end.

(** [regex.exec(error)], reduced to its group 1: the leftmost position
    where the pattern matches, [None] for a null result. *)
Fixpoint regex_exec (error : jsstring) : option jsstring :=
  match error with
  | [] => None
  | _ :: rest =>
      match strip_prefix error_token error with
      | Some after =>
          match before_last_brace (take_line after) with
          | Some group1 => Some group1
          | None => regex_exec rest
          end
      | None => regex_exec rest
      end
  end.

Inductive exn : Type := TypeError | SyntaxError.

(** [err.message]: a TypeError on null, undefined on any value without
    such a property. *)
Definition get_message (err : json) : exn + option json :=
  match err with
  | JNull => inl TypeError
  | JObj members => inr (get_member (js "message") members)
  | JBool _ | JNum _ | JStr _ | JArr _ => inr None
  end.

(** The body of the [try] block. *)
Definition parseError_try (error : jsstring) : exn + json :=
  match regex_exec error with
  | None => inl TypeError
  | Some e =>
      match JSON_parse e with
      | None => inl SyntaxError
      | Some err =>
          match get_message err with
          | inl x => inl x
          | inr (Some message) => inr (if truthy message then message else JStr error)
          | inr None => inr (JStr error)
          end
      end
  end.

(** The function: the [catch] clause returns its argument. *)
Definition parseError (error : jsstring) : json :=
  match parseError_try error with
  | inr v => v
  | inl _ => JStr error
  end.

(** The envelope is read and its message is kept: the pattern matches,
    its group parses, the parsed value has a message, and the message is
    truthy. *)
Definition reads_message (error : jsstring) (message : json) : Prop :=
  exists (e : jsstring) (err : json),
    regex_exec error = Some e
    /\ JSON_parse e = Some err
    /\ get_message err = inr (Some message)
    /\ truthy message = true.

(** Two inputs: an envelope whose message is the empty string, and an
    error text of the generation service. *)
Definition empty_message_envelope : jsstring :=
  error_token ++ js "{" ++ [QUOTE] ++ js "message" ++ [QUOTE] ++ js ":"
  ++ [QUOTE; QUOTE] ++ js "}}".

Definition api_error : jsstring :=
  js "got status: 404. " ++ error_token ++ js "{" ++ [QUOTE] ++ js "code" ++ [QUOTE]
  ++ js ": 404, " ++ [QUOTE] ++ js "message" ++ [QUOTE] ++ js ": " ++ [QUOTE]
  ++ js "Requested entity was not found." ++ [QUOTE] ++ js ", " ++ [QUOTE]
  ++ js "status" ++ [QUOTE] ++ js ": " ++ [QUOTE] ++ js "NOT_FOUND" ++ [QUOTE] ++ js "}}".

(** ** The canvas, its history and the generation request *)

(** One part of a generation response: [inlineData], when present, and
    its [data], when present. *)
Record Part : Type := {
  inlineData : option (option jsstring)
}.

(** How the awaited [generateContent] call ends: it throws an error
    whose [message] may be absent, or it answers with the parts of the
    first candidate, which may be absent too. *)
Inductive GenOutcome : Type :=
| Thrown (message : option jsstring)
| Responded (parts : option (list Part)).

(** The loop over the parts: the data of the first part that has
    [inlineData]. *)
Fixpoint first_inlineData (parts : list Part) : option jsstring :=
  match parts with
  | [] => None
  | part :: rest =>
      match inlineData part with
      | Some data => data
      | None => first_inlineData rest
      end
  end.

(** [imageData] after the loop, [None] for null or undefined. *)
Definition imageData_of (parts : option (list Part)) : option jsstring :=
  match parts with
  | Some ps => first_inlineData ps
  | None => None
  end.

(** [if (imageData)]. *)
Definition has_image (parts : option (list Part)) : bool :=
  match imageData_of parts with
  | Some data => nonempty data
  | None => false
  end.

(** The calls the specification names failing: a throw, or a response
    without an image payload. *)
Definition failing (out : GenOutcome) : bool :=
  match out with
  | Thrown _ => true
  | Responded parts => negb (has_image parts)
  end.

Definition entity_not_found : jsstring := js "Requested entity was not found".
Definition key_message : jsstring := js "Sesi kunci API tamat atau tidak sah.".
Definition unexpected_message : jsstring := js "Ralat tidak dijangka berlaku.".
Definition no_image_alert : jsstring := js "Maaf, imej tidak berjaya dihasilkan.".
Definition png_prefix : jsstring := js "data:image/png;base64,".

(** [a || b] on strings. *)
Definition or_else (a b : jsstring) : jsstring := if nonempty a then a else b.

Section Canvas.

(** The pixels of the canvas, and the three canvas calls of the
    history: serialization to a data URL, clearing, and drawing a
    decoded data URL at the origin. *)
Variable Surface : Type.
Variable toDataURL : Surface -> jsstring.
Variable clearRect : Surface -> Surface.
Variable drawImage : jsstring -> Surface -> Surface.

(** The cells of the component that the canvas logic and the
    submission read or write.  [canvasRef] is [None] while no canvas
    element is mounted; [alerts] records the calls of [alert]. *)
Record Home : Type := {
  canvasRef : option Surface;
  generatedImage : option jsstring;
  isLoading : bool;
  showErrorModal : bool;
  errorMessage : jsstring;
  hasKey : option bool;
  undoStack : list jsstring;
  redoStack : list jsstring;
  alerts : list jsstring
}.

Definition set_canvasRef (c : option Surface) (st : Home) : Home :=
  {| canvasRef := c; generatedImage := generatedImage st; isLoading := isLoading st;
     showErrorModal := showErrorModal st; errorMessage := errorMessage st;
     hasKey := hasKey st; undoStack := undoStack st; redoStack := redoStack st;
     alerts := alerts st |}.

Definition set_stacks (u r : list jsstring) (st : Home) : Home :=
  {| canvasRef := canvasRef st; generatedImage := generatedImage st;
     isLoading := isLoading st; showErrorModal := showErrorModal st;
     errorMessage := errorMessage st; hasKey := hasKey st;
     undoStack := u; redoStack := r; alerts := alerts st |}.

Definition set_isLoading (b : bool) (st : Home) : Home :=
  {| canvasRef := canvasRef st; generatedImage := generatedImage st; isLoading := b;
     showErrorModal := showErrorModal st; errorMessage := errorMessage st;
     hasKey := hasKey st; undoStack := undoStack st; redoStack := redoStack st;
     alerts := alerts st |}.

Definition set_generatedImage (g : option jsstring) (st : Home) : Home :=
  {| canvasRef := canvasRef st; generatedImage := g; isLoading := isLoading st;
     showErrorModal := showErrorModal st; errorMessage := errorMessage st;
     hasKey := hasKey st; undoStack := undoStack st; redoStack := redoStack st;
     alerts := alerts st |}.

Definition set_error (modal : bool) (msg : jsstring) (key : option bool) (st : Home) : Home :=
  {| canvasRef := canvasRef st; generatedImage := generatedImage st;
     isLoading := isLoading st; showErrorModal := modal; errorMessage := msg;
     hasKey := key; undoStack := undoStack st; redoStack := redoStack st;
     alerts := alerts st |}.

Definition alert (msg : jsstring) (st : Home) : Home :=
  {| canvasRef := canvasRef st; generatedImage := generatedImage st;
     isLoading := isLoading st; showErrorModal := showErrorModal st;
     errorMessage := errorMessage st; hasKey := hasKey st;
     undoStack := undoStack st; redoStack := redoStack st;
     alerts := alerts st ++ [msg] |}.

(** *** History (lines 693-730) *)

Definition saveState (st : Home) : Home :=
  match canvasRef st with
  | None => st
  | Some canvas =>
      let state := toDataURL canvas in
      set_stacks (undoStack st ++ [state]) [] st
  end.

(** [loadState] creates an image and sets its source; the canvas is
    redrawn later, when the image has been decoded.  The result is the
    image whose load is now pending, if any. *)
Definition loadState (dataUrl : jsstring) (st : Home) : option jsstring :=
  match canvasRef st with
  | None => None
  | Some _ => Some dataUrl
  end.

(** The [img.onload] handler installed by [loadState]. *)
Definition loadState_onload (img : jsstring) (st : Home) : Home :=
  match canvasRef st with
  | None => st
  | Some canvas => set_canvasRef (Some (drawImage img (clearRect canvas))) st
  end.

Definition undo (st : Home) : Home * option jsstring :=
  match last (undoStack st), canvasRef st with
  | Some previousState, Some canvas =>
      let currentState := toDataURL canvas in
      (set_stacks (removelast (undoStack st)) (redoStack st ++ [currentState]) st,
       loadState previousState st)
  | _, _ => (st, None)
  end.

Definition redo (st : Home) : Home * option jsstring :=
  match last (redoStack st), canvasRef st with
  | Some nextState, Some canvas =>
      let currentState := toDataURL canvas in
      (set_stacks (undoStack st ++ [currentState]) (removelast (redoStack st)) st,
       loadState nextState st)
  | _, _ => (st, None)
  end.

(** A handler followed by the load it left pending. *)
Definition settle (r : Home * option jsstring) : Home :=
  match r with
  | (st, Some img) => loadState_onload img st
  | (st, None) => st
  end.

Definition undo_loaded (st : Home) : Home := settle (undo st).
Definition redo_loaded (st : Home) : Home := settle (redo st).

(** Drawing on the mounted canvas: what [draw], and the fill of
    [clearCanvas], do to the pixels. *)
Definition paint (f : Surface -> Surface) (st : Home) : Home :=
  match canvasRef st with
  | None => st
  | Some canvas => set_canvasRef (Some (f canvas)) st
  end.

(** A mutating operation preceded by its snapshot, as [startDrawing]
    followed by [draw] (lines 787-811) and as [clearCanvas]
    (lines 815-822). *)
Definition mutation (f : Surface -> Surface) (st : Home) : Home :=
  paint f (saveState st).

Definition mutations (ops : list (Surface -> Surface)) (st : Home) : Home :=
  fold_left (fun s f => mutation f s) ops st.

(** The states of a run of mutations, undos and redos: [past] are the
    surfaces whose snapshots were pushed on top of the stack [U],
    [cur] is on the canvas, [future] are the surfaces that redo
    brings back, the next one first. *)
Definition timeline (base : Home) (U : list jsstring)
           (past : list Surface) (cur : Surface) (future : list Surface) : Home :=
  set_canvasRef (Some cur)
    (set_stacks (U ++ map toDataURL past) (map toDataURL (rev future)) base).

(** The surface before each operation of a sequence, and the surface
    after the last one. *)
Fixpoint surfaces_before (ops : list (Surface -> Surface)) (s : Surface) : list Surface :=
  match ops with
  | [] => []
  | f :: ops' => s :: surfaces_before ops' (f s)
  end.

Definition surface_after (ops : list (Surface -> Surface)) (s : Surface) : Surface :=
  fold_left (fun c f => f c) ops s.

(** *** [handleSubmit] (lines 853-901) *)

(** Up to the [await]: [None] when the handler returns at once. *)
Definition handleSubmit_begin (st : Home) : option Home :=
  match canvasRef st with
  | None => None
  | Some _ => Some (set_isLoading true st)
  end.

(** From the [await] on: the rest of [try], [catch] and [finally]. *)
Definition handleSubmit_resume (out : GenOutcome) (st : Home) : Home :=
  let st1 :=
    match out with
    | Responded parts =>
        match imageData_of parts with
        | Some imageData =>
            if nonempty imageData
            then set_generatedImage (Some (png_prefix ++ imageData)) st
            else alert no_image_alert st
        | None => alert no_image_alert st
        end
    | Thrown message =>
        let msg := match message with Some m => or_else m [] | None => [] end in
        if includes entity_not_found msg
        then set_error true key_message (Some false) st
        else set_error true (or_else msg unexpected_message) (hasKey st) st
    end in
  set_isLoading false st1.

Definition handleSubmit (out : GenOutcome) (st : Home) : Home :=
  match handleSubmit_begin st with
  | None => st
  | Some st1 => handleSubmit_resume out st1
  end.

(** *** Rendering (lines 903-923)

    While [hasKey] is [false] the component returns the key screen,
    which has no canvas: the element is unmounted and React resets
    [canvasRef.current] to null.  When the main screen is rendered
    again, a new canvas element is mounted, with the pixels [blank] of a
    new element. *)
Definition render_commit (blank : Surface) (st : Home) : Home :=
  match hasKey st with
  | Some false => set_canvasRef None st
  | Some true | None =>
      match canvasRef st with
      | Some _ => st
      | None => set_canvasRef (Some blank) st
      end
  end.

End Canvas.

Arguments canvasRef {Surface} _.
Arguments generatedImage {Surface} _.
Arguments isLoading {Surface} _.
Arguments showErrorModal {Surface} _.
Arguments errorMessage {Surface} _.
Arguments hasKey {Surface} _.
Arguments undoStack {Surface} _.
Arguments redoStack {Surface} _.
Arguments alerts {Surface} _.
Arguments set_canvasRef {Surface} _ _.
Arguments set_stacks {Surface} _ _ _.
Arguments set_isLoading {Surface} _ _.
Arguments set_generatedImage {Surface} _ _.
Arguments set_error {Surface} _ _ _ _.
Arguments alert {Surface} _ _.
Arguments saveState {Surface} _ _.
Arguments loadState {Surface} _ _.
Arguments loadState_onload {Surface} _ _ _ _.
Arguments undo {Surface} _ _.
Arguments redo {Surface} _ _.
Arguments settle {Surface} _ _ _.
Arguments undo_loaded {Surface} _ _ _ _.
Arguments redo_loaded {Surface} _ _ _ _.
Arguments paint {Surface} _ _.
Arguments mutation {Surface} _ _ _.
Arguments mutations {Surface} _ _ _.
Arguments timeline {Surface} _ _ _ _ _ _.
Arguments surfaces_before {Surface} _ _.
Arguments surface_after {Surface} _ _.
Arguments handleSubmit_begin {Surface} _.
Arguments handleSubmit_resume {Surface} _ _.
Arguments handleSubmit {Surface} _ _.
Arguments render_commit {Surface} _ _.

(** Whether a canvas element is mounted. *)
Definition mounted {Surface : Type} (st : Home Surface) : bool :=
  match canvasRef st with
  | Some _ => true
  | None => false
  end.

(** [error.message || ''] in the [catch] clause. *)
Definition thrown_message (message : option jsstring) : jsstring :=
  match message with
  | Some m => or_else m []
  | None => []
  end.

(** The thrown error is the one that resets the key selection. *)
Definition key_error (out : GenOutcome) : bool :=
  match out with
  | Thrown (Some m) => includes entity_not_found m
  | Thrown None | Responded _ => false
  end.

(** The frame of the specification for a failed submission: only the
    loading flag and the error display (message, modal, alert) may
    differ between the two states. *)
Definition only_display_differs {Surface : Type} (st st' : Home Surface) : Prop :=
  canvasRef st' = canvasRef st
  /\ undoStack st' = undoStack st
  /\ redoStack st' = redoStack st
  /\ generatedImage st' = generatedImage st
  /\ hasKey st' = hasKey st.

(** *** A canvas for examples

    The surface is the text of its own data URL. *)
Definition text_toDataURL (s : jsstring) : jsstring := s.
Definition text_clearRect (s : jsstring) : jsstring := [].
Definition text_drawImage (img s : jsstring) : jsstring := img.

(** The component with a white canvas, a selected key and no history. *)
Definition fresh : Home jsstring :=
  {| canvasRef := Some (js "white"); generatedImage := None; isLoading := false;
     showErrorModal := false; errorMessage := []; hasKey := Some true;
     undoStack := []; redoStack := []; alerts := [] |}.

(** One stroke, undone. *)
Definition stroke_undone : Home jsstring :=
  undo_loaded text_toDataURL text_clearRect text_drawImage
    (mutation text_toDataURL (fun _ => js "stroke") fresh).

(** Then a submission that fails with the key error, and the render
    that follows it. *)
Definition key_screen : Home jsstring :=
  render_commit [] (handleSubmit (Thrown (Some api_error)) stroke_undone).

(** ** The voice pipeline (lines 595-690) *)

(** How a call ends. *)
Inductive completion : Type :=
| Normal
| Throw (e : jsstring).

(** The voice cells of the component, the prompt they feed, and the
    browser objects they point to.  Objects are named by numbers.
    [running] holds the audio contexts not yet closed, [live] the media
    streams with a live track (the microphone is in use exactly while
    this set is not empty), [connected] the script processors still
    connected to the audio graph. *)
Record Voice : Type := {
  isListening : bool;
  audioContextRef : option nat;
  streamRef : option nat;
  processorRef : option nat;
  sessionPromiseRef : option nat;
  prompt : jsstring;
  running : gset nat;
  live : gset nat;
  connected : gset nat
}.

Definition set_isListening (b : bool) (st : Voice) : Voice :=
  {| isListening := b; audioContextRef := audioContextRef st; streamRef := streamRef st;
     processorRef := processorRef st; sessionPromiseRef := sessionPromiseRef st;
     prompt := prompt st; running := running st; live := live st;
     connected := connected st |}.

Definition set_audioContext (r : option nat) (open : gset nat) (st : Voice) : Voice :=
  {| isListening := isListening st; audioContextRef := r; streamRef := streamRef st;
     processorRef := processorRef st; sessionPromiseRef := sessionPromiseRef st;
     prompt := prompt st; running := open; live := live st;
     connected := connected st |}.

Definition set_stream (r : option nat) (tracks : gset nat) (st : Voice) : Voice :=
  {| isListening := isListening st; audioContextRef := audioContextRef st; streamRef := r;
     processorRef := processorRef st; sessionPromiseRef := sessionPromiseRef st;
     prompt := prompt st; running := running st; live := tracks;
     connected := connected st |}.

Definition set_processor (r : option nat) (nodes : gset nat) (st : Voice) : Voice :=
  {| isListening := isListening st; audioContextRef := audioContextRef st;
     streamRef := streamRef st; processorRef := r;
     sessionPromiseRef := sessionPromiseRef st; prompt := prompt st;
     running := running st; live := live st; connected := nodes |}.

Definition set_sessionPromise (r : option nat) (st : Voice) : Voice :=
  {| isListening := isListening st; audioContextRef := audioContextRef st;
     streamRef := streamRef st; processorRef := processorRef st;
     sessionPromiseRef := r; prompt := prompt st; running := running st;
     live := live st; connected := connected st |}.

Definition set_prompt (p : jsstring) (st : Voice) : Voice :=
  {| isListening := isListening st; audioContextRef := audioContextRef st;
     streamRef := streamRef st; processorRef := processorRef st;
     sessionPromiseRef := sessionPromiseRef st; prompt := p; running := running st;
     live := live st; connected := connected st |}.

(** [audioContext.close()]: the promise it returns is rejected when the
    context is closed already. *)
Definition AudioContext_close (c : nat) (open : gset nat) : gset nat * completion :=
  (open ∖ {[c]},
   if bool_decide (c ∈ open) then Normal else Throw (js "InvalidStateError")).

(** [promise.catch(() => {})]. *)
Definition catch_ignore {A : Type} (r : A * completion) : A := fst r.

(** [stopListening] (lines 670-685). *)
Definition stopListening (st : Voice) : Voice * completion :=
  let st1 := set_isListening false st in
  let st2 :=
    match processorRef st1 with
    | Some processor => set_processor None (connected st1 ∖ {[processor]}) st1
    | None => st1
    end in
  let st3 :=
    match streamRef st2 with
    | Some stream => set_stream None (live st2 ∖ {[stream]}) st2
    | None => st2
    end in
  let st4 :=
    match audioContextRef st3 with
    | Some audioContext =>
        set_audioContext None (catch_ignore (AudioContext_close audioContext (running st3))) st3
    | None => st3
    end in
  (set_sessionPromise None st4, Normal).

(** What [startListening] has done when it gives control back. *)
Inductive StartStatus : Type :=
| Settled (c : completion)
| AwaitingMicrophone.

(** [startListening] up to [await getUserMedia] (lines 595-605).  The
    argument is the audio context the constructor returns, [None] when
    the constructor throws. *)
Definition startListening (audioContext : option nat) (st : Voice) : Voice * StartStatus :=
  if isListening st then (st, Settled Normal)
  else
    let st1 := set_isListening true st in
    match audioContext with
    | Some c => (set_audioContext (Some c) (running st1 ∪ {[c]}) st1, AwaitingMicrophone)
    | None => (fst (stopListening st1), Settled Normal)
    end.

(** How [getUserMedia] ends: with a stream whose tracks are live, or
    with an error. *)
Inductive MicOutcome : Type :=
| Granted (stream : nat)
| Refused (err : jsstring).

(** [startListening] from the [await] on (lines 605-667).  [session] is
    the promise returned by [live.connect], [None] when that call
    throws. *)
Definition startListening_resume (mic : MicOutcome) (session : option nat) (st : Voice)
  : Voice * completion :=
  match mic with
  | Refused _ => stopListening st
  | Granted stream =>
      let st1 := set_stream (Some stream) (live st ∪ {[stream]}) st in
      match session with
      | Some sessionPromise => (set_sessionPromise (Some sessionPromise) st1, Normal)
      | None => stopListening st1
      end
  end.

(** The [onopen] callback (lines 611-636): the processor it creates is
    stored and connected. *)
Definition onopen (processor : nat) (st : Voice) : Voice :=
  set_processor (Some processor) (connected st ∪ {[processor]}) st.

(** The [onclose] and [onerror] callbacks (lines 650-654). *)
Definition onclose (st : Voice) : Voice * completion := stopListening st.

Definition onerror (e : jsstring) (st : Voice) : Voice * completion := stopListening st.

(** [toggleListening] (lines 687-690); it does not await the start. *)
Definition toggleListening (audioContext : option nat) (st : Voice) : Voice :=
  if isListening st then fst (stopListening st) else fst (startListening audioContext st).

(** The events of the voice subsystem and the step each one takes; the
    prompt is also written by the text input (line 1017). *)
Inductive VoiceEvent : Type :=
| PromptInput (value : jsstring)
| MicButton (audioContext : option nat)
| MicrophoneSettled (mic : MicOutcome) (session : option nat)
| SessionOpen (processor : nat)
| SessionMessage (message : LiveServerMessage)
| SessionClose
| SessionError (e : jsstring)
| Unmount.

Definition step (ev : VoiceEvent) (st : Voice) : Voice :=
  match ev with
  | PromptInput value => set_prompt value st
  | MicButton audioContext => toggleListening audioContext st
  | MicrophoneSettled mic session => fst (startListening_resume mic session st)
  | SessionOpen processor => onopen processor st
  | SessionMessage message => set_prompt (onmessage message (prompt st)) st
  | SessionClose => fst (onclose st)
  | SessionError e => fst (onerror e st)
  | Unmount => fst (stopListening st)
  end.

Definition run (evs : list VoiceEvent) (st : Voice) : Voice :=
  fold_left (fun s ev => step ev s) evs st.

(** The state of the component when it mounts. *)
Definition initial : Voice :=
  {| isListening := false; audioContextRef := None; streamRef := None;
     processorRef := None; sessionPromiseRef := None; prompt := [];
     running := ∅; live := ∅; connected := ∅ |}.

(** The pipeline is stopped: not listening, and no handle kept. *)
Definition Stopped (st : Voice) : Prop :=
  isListening st = false /\ audioContextRef st = None /\ streamRef st = None
  /\ processorRef st = None /\ sessionPromiseRef st = None.

(** The objects a reference designates. *)
Definition referenced (r : option nat) : gset nat :=
  match r with
  | Some x => {[x]}
  | None => ∅
  end.

(** Every browser object still in use is the one its reference
    designates: the situation of a session opened by one start. *)
Definition owned (st : Voice) : Prop :=
  live st ⊆ referenced (streamRef st)
  /\ connected st ⊆ referenced (processorRef st)
  /\ running st ⊆ referenced (audioContextRef st).

(** The microphone is released, and nothing else is left in use. *)
Definition released (st : Voice) : Prop :=
  live st = ∅ /\ connected st = ∅ /\ running st = ∅.

(** The session was opened by one start: the stopped pipeline, with
    nothing in use, was started once, the microphone was granted, the
    session was connected and has opened; messages may have arrived,
    and the user may have typed, since.  This is one way for a session
    to be open, not the only one: the state after [overlapping_starts]
    below has an open session and is not of this form. *)
Inductive opened_by_one_start : Voice -> Prop :=
| one_start_opened (base : Voice) (audioContext stream sessionPromise processor : nat) :
    Stopped base -> released base ->
    opened_by_one_start
      (run [MicButton (Some audioContext);
            MicrophoneSettled (Granted stream) (Some sessionPromise);
            SessionOpen processor] base)
| one_start_message (st : Voice) (message : LiveServerMessage) :
    opened_by_one_start st -> opened_by_one_start (step (SessionMessage message) st)
| one_start_typing (st : Voice) (value : jsstring) :
    opened_by_one_start st -> opened_by_one_start (step (PromptInput value) st).

(** The pipeline after one click on the microphone button, and with its
    session open. *)
Definition listening : Voice := step (MicButton (Some 1)) initial.

Definition streaming : Voice :=
  run [MicButton (Some 1); MicrophoneSettled (Granted 2) (Some 3); SessionOpen 4] initial.

(** A start, a stop and a second start while the first request for the
    microphone is pending; both requests are then granted and the second
    session opens. *)
Definition overlapping_starts : list VoiceEvent :=
  [MicButton (Some 1); MicButton None; MicButton (Some 2);
   MicrophoneSettled (Granted 10) (Some 20);
   MicrophoneSettled (Granted 11) (Some 21);
   SessionOpen 30].

(** ** The bytes of a frame and [encode] (lines 539-546, 620-626) *)

(** The two bytes of one 16-bit sample as [new Uint8Array(int16.buffer)]
    shows them: the byte order of the platform, which is little-endian
    on the platforms browsers run on. *)
Definition int16_bytes (z : Z) : list N :=
  let u := (z mod 65536)%Z in
  [Z.to_N (u mod 256); Z.to_N (u / 256)].

Definition Uint8Array_of_buffer (int16 : list Z) : list N :=
  flat_map int16_bytes int16.

(** An element of a [Uint8Array]. *)
Definition is_byte (n : N) : Prop := (n < 256)%N.

(** [String.fromCharCode(n)]: one code unit. *)
Definition fromCharCode (n : N) : N := (n mod 65536)%N.

(** The letter of a 6-bit group in the alphabet of [btoa]. *)
Definition b64_char (n : N) : N :=
  if (n <? 26)%N then (n + 65)%N
  else if (n <? 52)%N then (n + 71)%N
  else if (n <? 62)%N then (n - 4)%N
  else if (n =? 62)%N then 43%N
  else 47%N.

Definition PAD : N := 61%N.

(** Base 64 with padding, three characters at a time. *)
Fixpoint base64 (s : jsstring) : jsstring :=
  match s with
  | [] => []
  | [a] => [b64_char (a / 4); b64_char (a mod 4 * 16); PAD; PAD]%N
  | [a; b] =>
      [b64_char (a / 4); b64_char (a mod 4 * 16 + b / 16);
       b64_char (b mod 16 * 4); PAD]%N
  | a :: b :: c :: rest =>
      (b64_char (a / 4) :: b64_char (a mod 4 * 16 + b / 16)
       :: b64_char (b mod 16 * 4 + c / 64) :: b64_char (c mod 64) :: base64 rest)%N
  end.

(** [btoa(s)]: [None] stands for the InvalidCharacterError thrown when a
    code unit is above 255. *)
Definition btoa (s : jsstring) : option jsstring :=
  if forallb (fun c => (c <? 256)%N) s then Some (base64 s) else None.

(** [encode]: the loop builds the binary string, [btoa] encodes it. *)
Definition encode (bytes : list N) : option jsstring :=
  let binary := map fromCharCode bytes in
  btoa binary.

(** [pcmBlob.data] for one input buffer. *)
Definition pcmBlob_data (inputData : list jsnumber) : option jsstring :=
  encode (Uint8Array_of_buffer (onaudioprocess_int16 inputData)).

(** The letters of the alphabet. *)
Definition is_b64_char (c : N) : bool :=
  ((65 <=? c) && (c <=? 90) || (97 <=? c) && (c <=? 122)
   || (48 <=? c) && (c <=? 57) || (c =? 43) || (c =? 47))%N.

(** The reading of base 64 by a receiver, used to show that the encoding
    loses nothing: the 6-bit group of a letter, and the bytes of a
    text. *)
Definition b64_value (c : N) : N :=
  if ((65 <=? c) && (c <=? 90))%N then (c - 65)%N
  else if ((97 <=? c) && (c <=? 122))%N then (c - 71)%N
  else if ((48 <=? c) && (c <=? 57))%N then (c + 4)%N
  else if (c =? 43)%N then 62%N
  else 63%N.

Fixpoint unbase64 (t : jsstring) : list N :=
  match t with
  | w :: x :: y :: z :: rest =>
      let a := (b64_value w * 4 + b64_value x / 16)%N in
      if (y =? PAD)%N then [a]
      else
        let b := (b64_value x mod 16 * 16 + b64_value y / 4)%N in
        if (z =? PAD)%N then [a; b]
        else a :: b :: (b64_value y mod 4 * 64 + b64_value z)%N :: unbase64 rest
  | _ => []
  end.

(** ** [handleExport] (lines 843-851) *)

(** [s.replace(/[:.]/g, '-')]. *)
Definition replace_colon_period (s : jsstring) : jsstring :=
  map (fun c => if ((c =? 58) || (c =? 46))%N then 45%N else c) s.

(** The timestamp of the file name, from the text of [toISOString()]. *)
Definition export_timestamp (iso : jsstring) : jsstring :=
  take 19 (replace_colon_period iso).

(** [link.download]. *)
Definition export_filename (iso : jsstring) : jsstring :=
  js "gemini-drawing-" ++ export_timestamp iso ++ js ".png".

(** ** Key selection (lines 579-592) *)

Definition set_hasKey {Surface : Type} (k : option bool) (st : Home Surface) : Home Surface :=
  set_error (showErrorModal st) (errorMessage st) k st.

(** [checkApiKey], with the answer of [hasSelectedApiKey]. *)
Definition checkApiKey {Surface : Type} (exists_ : bool) (st : Home Surface) : Home Surface :=
  set_hasKey (Some exists_) st.

(** [handleSelectKey]: [opened] tells whether [openSelectKey] resolved;
    when it throws, the error is logged and nothing changes. *)
Definition handleSelectKey {Surface : Type} (opened : bool) (st : Home Surface) : Home Surface :=
  if opened then set_hasKey (Some true) st else st.

(** The error modal is closed by its two buttons (lines 1047, 1052). *)
Definition closeErrorModal {Surface : Type} (st : Home Surface) : Home Surface :=
  set_error false (errorMessage st) (hasKey st) st.

(** What the modal shows (line 1051).  The modal is part of the main
    screen, so it is rendered when [showErrorModal] is set and [hasKey]
    is not [false]. *)
Definition modal_text {Surface : Type} (st : Home Surface) : option json :=
  match hasKey st with
  | Some false => None
  | Some true | None =>
      if showErrorModal st then Some (parseError (errorMessage st)) else None
  end.

(** ** Drawing, clearing and loading an image (lines 732-837) *)

Section Editor.

Variable Surface : Type.
Variable toDataURL : Surface -> jsstring.

(** The canvas calls of the drawing handlers: the white fill of the
    whole canvas, the scaled and centred drawing of an image, the start
    of a path at a point, and a line to a point stroked with a colour.
    A point stands for the coordinates that [getCoordinates] computes
    from an event. *)
Variable fillWhite : Surface -> Surface.
Variable drawImage_scaled : jsstring -> Surface -> Surface.
Variable Point : Type.
Variable beginPath_moveTo : Point -> Surface -> Surface.
Variable lineTo_stroke : jsstring -> Point -> Surface -> Surface.

(** The cells of the component used by the drawing handlers, beside
    those of [Home]. *)
Record Editor : Type := {
  home : Home Surface;
  backgroundImageRef : option jsstring;
  isDrawing : bool;
  penColor : jsstring
}.

Definition set_home (h : Home Surface) (ed : Editor) : Editor :=
  {| home := h; backgroundImageRef := backgroundImageRef ed;
     isDrawing := isDrawing ed; penColor := penColor ed |}.

Definition set_backgroundImageRef (b : option jsstring) (ed : Editor) : Editor :=
  {| home := home ed; backgroundImageRef := b;
     isDrawing := isDrawing ed; penColor := penColor ed |}.

Definition set_isDrawing (b : bool) (ed : Editor) : Editor :=
  {| home := home ed; backgroundImageRef := backgroundImageRef ed;
     isDrawing := b; penColor := penColor ed |}.

(** [handleColorChange]. *)
Definition handleColorChange (value : jsstring) (ed : Editor) : Editor :=
  {| home := home ed; backgroundImageRef := backgroundImageRef ed;
     isDrawing := isDrawing ed; penColor := value |}.

(** [initializeCanvas], run once when the component mounts. *)
Definition initializeCanvas (ed : Editor) : Editor :=
  match canvasRef (home ed) with
  | None => ed
  | Some canvas => set_home (set_canvasRef (Some (fillWhite canvas)) (home ed)) ed
  end.

(** [drawImageToCanvas]. *)
Definition drawImageToCanvas (ed : Editor) : Editor :=
  match canvasRef (home ed), backgroundImageRef ed with
  | Some canvas, Some img =>
      set_home (set_canvasRef (Some (drawImage_scaled img (fillWhite canvas))) (home ed)) ed
  | _, _ => ed
  end.

(** The effect on [generatedImage] (lines 732-742), which React runs
    after a render in which that cell has changed: the image whose load
    it starts, if any. *)
Definition generatedImage_effect (ed : Editor) : option jsstring :=
  match generatedImage (home ed), canvasRef (home ed) with
  | Some g, Some _ => if nonempty g then Some g else None
  | _, _ => None
  end.

(** The [img.onload] handler of that effect. *)
Definition generatedImage_onload (img : jsstring) (ed : Editor) : Editor :=
  let ed1 := set_backgroundImageRef (Some img) ed in
  let ed2 := drawImageToCanvas ed1 in
  set_home (saveState toDataURL (home ed2)) ed2.

(** [startDrawing]. *)
Definition startDrawing (p : Point) (ed : Editor) : Editor :=
  let ed1 := set_home (saveState toDataURL (home ed)) ed in
  match canvasRef (home ed1) with
  | None => ed1
  | Some canvas =>
      set_isDrawing true
        (set_home (set_canvasRef (Some (beginPath_moveTo p canvas)) (home ed1)) ed1)
  end.

(** [draw]. *)
Definition draw (p : Point) (ed : Editor) : Editor :=
  if isDrawing ed then
    match canvasRef (home ed) with
    | None => ed
    | Some canvas =>
        set_home (set_canvasRef (Some (lineTo_stroke (penColor ed) p canvas)) (home ed)) ed
    end
  else ed.

(** [stopDrawing]. *)
Definition stopDrawing (ed : Editor) : Editor := set_isDrawing false ed.

(** A whole gesture: the button goes down at a point, the pointer
    moves through some points, the button goes up. *)
Definition gesture (p : Point) (moves : list Point) (ed : Editor) : Editor :=
  stopDrawing (fold_left (fun e q => draw q e) moves (startDrawing p ed)).

(** What a gesture does to the pixels. *)
Definition gesture_surface (color : jsstring) (p : Point) (moves : list Point)
           (canvas : Surface) : Surface :=
  fold_left (fun c q => lineTo_stroke color q c) moves (beginPath_moveTo p canvas).

(** [clearCanvas]. *)
Definition clearCanvas (ed : Editor) : Editor :=
  let ed1 := set_home (saveState toDataURL (home ed)) ed in
  match canvasRef (home ed1) with
  | None => ed1
  | Some canvas =>
      set_backgroundImageRef None
        (set_home
           (set_generatedImage None (set_canvasRef (Some (fillWhite canvas)) (home ed1)))
           ed1)
  end.

(** The [reader.onload] handler of [handleFileUpload], with the data URL
    of the file. *)
Definition handleFileUpload_onload (dataUrl : jsstring) (ed : Editor) : Editor :=
  set_home (set_generatedImage (Some dataUrl) (home ed)) ed.

End Editor.

Arguments home {Surface} _.
Arguments backgroundImageRef {Surface} _.
Arguments isDrawing {Surface} _.
Arguments penColor {Surface} _.
Arguments set_home {Surface} _ _.
Arguments set_backgroundImageRef {Surface} _ _.
Arguments set_isDrawing {Surface} _ _.
Arguments handleColorChange {Surface} _ _.
Arguments initializeCanvas {Surface} _ _.
Arguments drawImageToCanvas {Surface} _ _ _.
Arguments generatedImage_effect {Surface} _.
Arguments generatedImage_onload {Surface} _ _ _ _ _.
Arguments startDrawing {Surface} _ {Point} _ _ _.
Arguments draw {Surface} {Point} _ _ _.
Arguments stopDrawing {Surface} _.
Arguments gesture {Surface} _ {Point} _ _ _ _ _.
Arguments gesture_surface {Surface} {Point} _ _ _ _ _ _.
Arguments clearCanvas {Surface} _ _ _.
Arguments handleFileUpload_onload {Surface} _ _.

(** *** The example canvas, with its drawing calls

    A point is a number; a stroke appends text to the surface. *)
Definition text_fillWhite (s : jsstring) : jsstring := js "white".
Definition text_drawImage_scaled (img s : jsstring) : jsstring := s ++ js "+" ++ img.
Definition text_moveTo (p : nat) (s : jsstring) : jsstring := s.
Definition text_lineTo (color : jsstring) (p : nat) (s : jsstring) : jsstring :=
  s ++ js "-" ++ color.

(** The editor on the state [stroke_undone], with the black pen. *)
Definition studio : Editor jsstring :=
  {| home := stroke_undone; backgroundImageRef := None; isDrawing := false;
     penColor := js "#000000" |}.

(* ===================================================================== *)
(** * Part II. Properties                                                 *)
(* ===================================================================== *)

(** ** Transcript merge *)

Lemma slice_last_space (prev : jsstring) :
  str_eqb (slice_last prev) [SPACE] = bool_decide (last prev = Some SPACE).
Proof.
  unfold str_eqb, slice_last.
  destruct (last prev) as [c|]; apply bool_decide_ext; split; congruence.
Qed.

Lemma nonempty_true (s : jsstring) : nonempty s = true <-> s <> [].
Proof. destruct s; simpl; split; congruence. Qed.

(** The separator that [mergeFragment] inserts. *)
Lemma mergeFragment_unfold (prev text : jsstring) :
  mergeFragment prev text =
    prev ++ (if nonempty prev && negb (bool_decide (last prev = Some SPACE))
             then [SPACE] else []) ++ text.
Proof. unfold mergeFragment. now rewrite slice_last_space. Qed.

Example merge_into_empty : mergeFragment [] (js "hello") = js "hello".
Proof. reflexivity. Qed.

Example merge_with_separator : mergeFragment (js "hello") (js "world") = js "hello world".
Proof. reflexivity. Qed.

Example merge_after_space : mergeFragment (js "hello ") (js "world") = js "hello world".
Proof. reflexivity. Qed.

(** The scenario of the specification: three fragments into an empty
    buffer. *)
Example merge_three_fragments :
  fold_left
    (fun p t => onmessage {| inputTranscription := Some (Some t) |} p)
    [js "turn"; js "the"; js "sky blue"] [] = js "turn the sky blue".
Proof. reflexivity. Qed.

(** C4, as stated, fails: a buffer that ends with a tab ends with
    whitespace, so the stated merge adds no separator, but the code
    compares the last character with the space character only and adds
    one. *)
Lemma mergeFragment_after_tab :
  nonempty (js "world") = true
  /\ ends_with_whitespace (js "hello" ++ [9%N]) = true
  /\ mergeFragment (js "hello" ++ [9%N]) (js "world") = js "hello" ++ [9%N] ++ js " world"
  /\ mergeFragment (js "hello" ++ [9%N]) (js "world")
     <> mergeFragment_spec (js "hello" ++ [9%N]) (js "world").
Proof. repeat split; try reflexivity. vm_compute. discriminate. Qed.

(** C4, amended: for every buffer and fragment the merge is the buffer,
    a separator, and the fragment; the separator is one space when the
    buffer is not empty and its last character is not the space
    character, and nothing otherwise; the buffer is kept as a prefix;
    the three examples of the specification hold. *)
Theorem mergeFragment_separator (prev text : jsstring) :
  (exists sep : jsstring,
      mergeFragment prev text = prev ++ sep ++ text
      /\ (sep = [SPACE] \/ sep = [])
      /\ (sep = [SPACE] <-> prev <> [] /\ last prev <> Some SPACE))
  /\ take (length prev) (mergeFragment prev text) = prev
  /\ mergeFragment [] (js "hello") = js "hello"
  /\ mergeFragment (js "hello") (js "world") = js "hello world"
  /\ mergeFragment (js "hello ") (js "world") = js "hello world".
Proof.
  rewrite mergeFragment_unfold.
  split; [|split; [now rewrite take_app_length | repeat split]].
  destruct (nonempty prev) eqn:Hne; simpl.
  - apply nonempty_true in Hne.
    case_bool_decide as Hlast; simpl.
    + exists []. split; [reflexivity|]. split; [now right|].
      split; [discriminate | intros [_ H]; contradiction].
    + exists [SPACE]. split; [reflexivity|]. split; [now left|]. tauto.
  - exists []. split; [reflexivity|]. split; [now right|].
    split; [discriminate|]. intros [H _]. apply nonempty_true in H. congruence.
Qed.

(** C10: a message whose transcription text is the empty string leaves
    the prompt, and the whole state of the voice subsystem, as it was;
    no separator is added. *)
Theorem onmessage_empty_text (st : Voice) (p : jsstring) :
  onmessage {| inputTranscription := Some (Some []) |} p = p
  /\ step (SessionMessage {| inputTranscription := Some (Some []) |}) st = st.
Proof. split; [reflexivity|]. now destruct st. Qed.

(** A message without transcription, or without text, does the same. *)
Lemma onmessage_no_text (p : jsstring) :
  onmessage {| inputTranscription := None |} p = p
  /\ onmessage {| inputTranscription := Some None |} p = p.
Proof. split; reflexivity. Qed.

(** ** Audio frames *)

(** C3, as stated, fails: the full-scale sample 1.0 is stored as -32768,
    where rounding and clamping give 32767; and a product with a
    fractional part of one half or more is cut, not rounded. *)
Lemma quantize_full_scale_wraps :
  quantize (Finite 1) = (-32768)%Z
  /\ quantize_spec 1 = 32767%Z
  /\ quantize (Finite 1) <> quantize_spec 1
  /\ quantize (Finite (3 # 65536)) = 1%Z
  /\ quantize_spec (3 # 65536) = 2%Z.
Proof. repeat split; try reflexivity. vm_compute. discriminate. Qed.

(** Cutting toward zero, by cases on the sign. *)
Lemma truncate_nonneg (a : Z) (b : positive) :
  (0 <= a)%Z -> truncate (a # b) = (a / Z.pos b)%Z.
Proof. intros Ha. unfold truncate. simpl. apply Z.quot_div_nonneg; lia. Qed.

Lemma truncate_neg (a : Z) (b : positive) :
  (a <= 0)%Z -> truncate (a # b) = (- ((- a) / Z.pos b))%Z.
Proof.
  intros Ha. unfold truncate. simpl.
  rewrite <- (Z.opp_involutive a) at 1.
  rewrite Z.quot_opp_l by lia.
  f_equal. apply Z.quot_div_nonneg; lia.
Qed.

Lemma truncate_scaled_bounds (q : Q) :
  (-1 <= q)%Q -> (q < 1)%Q ->
  (-32768 <= truncate (q * 32768) <= 32767)%Z.
Proof.
  destruct q as [a b]. unfold Qle, Qlt. simpl.
  intros Hlo Hhi.
  change ((a # b) * 32768)%Q with ((a * 32768)%Z # (b * 1)%positive)%Q.
  rewrite Pos.mul_1_r.
  destruct (Z_le_gt_dec 0 a) as [Ha | Ha].
  - rewrite truncate_nonneg by lia.
    assert (a * 32768 / Z.pos b < 32768)%Z by (apply Z.div_lt_upper_bound; lia).
    assert (0 <= a * 32768 / Z.pos b)%Z by (apply Z.div_pos; lia).
    lia.
  - rewrite truncate_neg by lia.
    assert (- (a * 32768) / Z.pos b <= 32768)%Z.
    { apply Z.div_le_upper_bound; lia. }
    assert (0 <= - (a * 32768) / Z.pos b)%Z by (apply Z.div_pos; lia).
    lia.
Qed.

Lemma truncate_toward_zero (q : Q) :
  ((0 <= q -> inject_Z (truncate q) <= q /\ q < inject_Z (truncate q + 1))
   /\ (q <= 0 -> q <= inject_Z (truncate q) /\ inject_Z (truncate q - 1) < q))%Q.
Proof.
  destruct q as [a b]. unfold Qle, Qlt, inject_Z.
  cbn [Qnum Qden].
  assert (Hb : (0 < Z.pos b)%Z) by lia.
  split; intros Ha.
  - rewrite truncate_nonneg by lia.
    pose proof (Z.mul_div_le a (Z.pos b) Hb).
    pose proof (Z.mul_succ_div_gt a (Z.pos b) Hb).
    lia.
  - rewrite truncate_neg by lia.
    pose proof (Z.mul_div_le (- a) (Z.pos b) Hb).
    pose proof (Z.mul_succ_div_gt (- a) (Z.pos b) Hb).
    lia.
Qed.

(** C3, amended: a sample from -1.0 up to, but not including, 1.0 is
    stored as its product with 32768 cut toward zero; the stored value
    is in the signed 16-bit range, so nothing wraps. *)
Theorem quantize_truncates (q : Q) :
  (-1 <= q)%Q -> (q < 1)%Q ->
  quantize (Finite q) = truncate (q * 32768)
  /\ (-32768 <= quantize (Finite q) <= 32767)%Z
  /\ ((0 <= q -> inject_Z (quantize (Finite q)) <= q * 32768
                 /\ q * 32768 < inject_Z (quantize (Finite q) + 1))
      /\ (q <= 0 -> q * 32768 <= inject_Z (quantize (Finite q))
                    /\ inject_Z (quantize (Finite q) - 1) < q * 32768))%Q.
Proof.
  intros Hlo Hhi.
  pose proof (truncate_scaled_bounds q Hlo Hhi) as Hb.
  assert (Heq : quantize (Finite q) = truncate (q * 32768)).
  { unfold quantize, times_32768, ToInt16.
    destruct (Z_le_gt_dec 0 (truncate (q * 32768))) as [Hs | Hs].
    - rewrite Z.mod_small by lia.
      destruct (Z.leb_spec 32768 (truncate (q * 32768))); lia.
    - replace (truncate (q * 32768) mod 65536)%Z with (truncate (q * 32768) + 65536)%Z.
      + destruct (Z.leb_spec 32768 (truncate (q * 32768) + 65536)); lia.
      + apply Z.mod_unique with (q := (-1)%Z); lia. }
  rewrite Heq. split; [reflexivity|]. split; [exact Hb|].
  pose proof (truncate_toward_zero (q * 32768)) as [Hpos Hneg].
  split; intros Hq.
  - apply Hpos. destruct q as [a b]. unfold Qle in *. simpl in *. lia.
  - apply Hneg. destruct q as [a b]. unfold Qle in *. simpl in *. lia.
Qed.

Lemma quantize_truncates_witness :
  (-1 <= 1 # 2)%Q /\ (1 # 2 < 1)%Q
  /\ quantize (Finite (1 # 2)) = 16384%Z
  /\ (-32768 <= quantize (Finite (1 # 2)) <= 32767)%Z.
Proof.
  assert (Hlo : (-1 <= 1 # 2)%Q) by (unfold Qle; simpl; lia).
  assert (Hhi : (1 # 2 < 1)%Q) by (unfold Qlt; simpl; lia).
  destruct (quantize_truncates (1 # 2) Hlo Hhi) as (Heq & Hrange & _).
  split; [exact Hlo|]. split; [exact Hhi|]. split; [|exact Hrange].
  rewrite Heq. reflexivity.
Defined.

(** ** [parseError] *)

Example parseError_api_error :
  parseError api_error = JStr (js "Requested entity was not found.").
Proof. vm_compute. reflexivity. Qed.

Example parseError_plain_text : parseError (js "network down") = JStr (js "network down").
Proof. vm_compute. reflexivity. Qed.

Example parseError_null_envelope :
  parseError_try (error_token ++ js "null}") = inl TypeError
  /\ parseError (error_token ++ js "null}") = JStr (error_token ++ js "null}").
Proof. split; vm_compute; reflexivity. Qed.

(** The group runs to the last closing brace of the line: text with a
    brace after the envelope makes the parse fail. *)
Example parseError_trailing_brace :
  regex_exec (api_error ++ js " {retry}")
  = Some (js "{" ++ [QUOTE] ++ js "code" ++ [QUOTE] ++ js ": 404, " ++ [QUOTE]
          ++ js "message" ++ [QUOTE] ++ js ": " ++ [QUOTE]
          ++ js "Requested entity was not found." ++ [QUOTE] ++ js ", " ++ [QUOTE]
          ++ js "status" ++ [QUOTE] ++ js ": " ++ [QUOTE] ++ js "NOT_FOUND" ++ [QUOTE]
          ++ js "}} {retry")
  /\ parseError (api_error ++ js " {retry}") = JStr (api_error ++ js " {retry}").
Proof. split; vm_compute; reflexivity. Qed.

(** C9, as stated, fails: the envelope whose content is an object with
    the message field set to the empty string has a message field, yet
    the function returns the whole input and not that message. *)
Lemma parseError_empty_message :
  regex_exec empty_message_envelope
  = Some (js "{" ++ [QUOTE] ++ js "message" ++ [QUOTE] ++ js ":" ++ [QUOTE; QUOTE] ++ js "}")
  /\ JSON_parse (js "{" ++ [QUOTE] ++ js "message" ++ [QUOTE] ++ js ":" ++ [QUOTE; QUOTE] ++ js "}")
     = Some (JObj [(js "message", JStr [])])
  /\ get_message (JObj [(js "message", JStr [])]) = inr (Some (JStr []))
  /\ parseError empty_message_envelope = JStr empty_message_envelope
  /\ parseError empty_message_envelope <> JStr [].
Proof. repeat split; try (vm_compute; reflexivity). vm_compute. discriminate. Qed.

Lemma parseError_reads (error : jsstring) (message : json) :
  reads_message error message -> parseError error = message.
Proof.
  intros (e & err & Hm & Hp & Hg & Ht).
  unfold parseError, parseError_try. now rewrite Hm, Hp, Hg, Ht.
Qed.

Lemma parseError_falls_back (error : jsstring) :
  (forall message, ~ reads_message error message) -> parseError error = JStr error.
Proof.
  intros Hno. unfold parseError, parseError_try.
  destruct (regex_exec error) as [e|] eqn:Hm; [|reflexivity].
  destruct (JSON_parse e) as [err|] eqn:Hp; [|reflexivity].
  destruct (get_message err) as [x | [message|]] eqn:Hg; try reflexivity.
  destruct (truthy message) eqn:Ht; [|reflexivity].
  exfalso. apply (Hno message). exists e, err. auto.
Qed.

(** C9, amended: [parseError] returns a value on every input and has
    two branches.  When the pattern matches, its group parses as JSON,
    and the parsed value has a message that is truthy (a string that is
    not empty, for instance), the result is that message.  In every
    other case (no match, a parse failure, null, no message, or a falsy
    message such as the empty string) the result is the input. *)
Theorem parseError_two_branches (error : jsstring) :
  (forall message, reads_message error message -> parseError error = message)
  /\ ((forall message, ~ reads_message error message) -> parseError error = JStr error)
  /\ (parseError error = JStr error
      \/ exists message, reads_message error message /\ parseError error = message)
  /\ match parseError_try error with
     | inl _ => parseError error = JStr error
     | inr v => parseError error = v
     end.
Proof.
  split; [apply parseError_reads|]. split; [apply parseError_falls_back|].
  split.
  - unfold parseError, parseError_try.
    destruct (regex_exec error) as [e|] eqn:Hm; [|now left].
    destruct (JSON_parse e) as [err|] eqn:Hp; [|now left].
    destruct (get_message err) as [x | [message|]] eqn:Hg; try now left.
    destruct (truthy message) eqn:Ht; [|now left].
    right. exists message. split; [|reflexivity]. exists e, err. auto.
  - unfold parseError. now destruct (parseError_try error).
Qed.

Lemma parseError_two_branches_witness :
  reads_message api_error (JStr (js "Requested entity was not found."))
  /\ parseError api_error = JStr (js "Requested entity was not found.").
Proof.
  assert (H : reads_message api_error (JStr (js "Requested entity was not found."))).
  { eexists _, _. repeat split; vm_compute; reflexivity. }
  split; [exact H|].
  exact (proj1 (parseError_two_branches api_error) _ H).
Defined.

(** ** History *)

Section HistoryProperties.

Context {Surface : Type}.
Variable toDataURL : Surface -> jsstring.
Variable clearRect : Surface -> Surface.
Variable drawImage : jsstring -> Surface -> Surface.

Local Abbreviation saveState := (saveState toDataURL).
Local Abbreviation undo := (undo toDataURL).
Local Abbreviation redo := (redo toDataURL).
Local Abbreviation undo_loaded := (undo_loaded toDataURL clearRect drawImage).
Local Abbreviation redo_loaded := (redo_loaded toDataURL clearRect drawImage).
Local Abbreviation mutation := (mutation toDataURL).
Local Abbreviation mutations := (mutations toDataURL).
Local Abbreviation timeline := (timeline toDataURL).

(** *** Unmounted canvas: every handler returns at once *)

Lemma saveState_unmounted (st : Home Surface) :
  canvasRef st = None -> saveState st = st.
Proof. unfold saveState. now intros ->. Qed.

Lemma mutation_unmounted (f : Surface -> Surface) (st : Home Surface) :
  canvasRef st = None -> mutation f st = st.
Proof.
  intros H. unfold mutation. rewrite saveState_unmounted by exact H.
  unfold paint. now rewrite H.
Qed.

Lemma mutations_unmounted (ops : list (Surface -> Surface)) (st : Home Surface) :
  canvasRef st = None -> mutations ops st = st.
Proof.
  intros H. induction ops as [|f ops IH]; [reflexivity|].
  unfold mutations in *. simpl. now rewrite mutation_unmounted.
Qed.

Lemma undo_unmounted (st : Home Surface) :
  canvasRef st = None -> undo st = (st, None).
Proof. unfold undo. intros ->. now destruct (last (undoStack st)). Qed.

Lemma redo_unmounted (st : Home Surface) :
  canvasRef st = None -> redo st = (st, None).
Proof. unfold redo. intros ->. now destruct (last (redoStack st)). Qed.

Lemma iter_fixed {A : Type} (f : A -> A) (x : A) (n : nat) :
  f x = x -> Nat.iter n f x = x.
Proof. intros H. induction n as [|n IH]; simpl; congruence. Qed.

(** *** Redo after a snapshot *)

Lemma saveState_mounted (st : Home Surface) (c : Surface) :
  canvasRef st = Some c ->
  saveState st = set_stacks (undoStack st ++ [toDataURL c]) [] st.
Proof. unfold saveState. now intros ->. Qed.

Lemma redo_empty (st : Home Surface) :
  redoStack st = [] -> redo st = (st, None).
Proof. unfold redo. now intros ->. Qed.

Lemma redoStack_paint (f : Surface -> Surface) (st : Home Surface) :
  redoStack (paint f st) = redoStack st.
Proof. unfold paint. now destruct (canvasRef st). Qed.

(** C2, amended: a call of [saveState] that finds the canvas mounted
    empties [redoStack]; one that finds no canvas returns at once and
    changes nothing.  In both cases [redo] right after the call, or
    after the call and the drawing that follows it, is a guarded
    no-op: the state is unchanged and nothing is loaded. *)
Theorem saveState_then_redo (st : Home Surface) :
  (forall c, canvasRef st = Some c ->
             redoStack (saveState st) = []
             /\ undoStack (saveState st) = undoStack st ++ [toDataURL c])
  /\ (canvasRef st = None -> saveState st = st)
  /\ redo (saveState st) = (saveState st, None)
  /\ (forall f, redo (mutation f st) = (mutation f st, None)).
Proof.
  split; [|split; [apply saveState_unmounted|]].
  - intros c Hc. rewrite (saveState_mounted st c Hc). split; reflexivity.
  - destruct (canvasRef st) as [c|] eqn:Hc.
    + split; [|intros f]; apply redo_empty.
      * now rewrite (saveState_mounted st c Hc).
      * unfold mutation. rewrite redoStack_paint.
        now rewrite (saveState_mounted st c Hc).
    + split; [|intros f].
      * rewrite saveState_unmounted by exact Hc. now apply redo_unmounted.
      * rewrite mutation_unmounted by exact Hc. now apply redo_unmounted.
Qed.

(** *** The timeline of a run *)

Lemma timeline_mutation (b : Home Surface) U past cur future f :
  mutation f (timeline b U past cur future) = timeline b U (past ++ [cur]) (f cur) [].
Proof.
  unfold mutation, saveState, paint, timeline. simpl.
  now rewrite map_app, app_assoc.
Qed.

Lemma first_mutation (st : Home Surface) (c : Surface) f :
  canvasRef st = Some c ->
  mutation f st = timeline st (undoStack st) [c] (f c) [].
Proof.
  intros Hc. unfold mutation. rewrite (saveState_mounted st c Hc).
  unfold paint, timeline. simpl. now rewrite Hc.
Qed.

Lemma timeline_mutations (b : Home Surface) U ops : forall past cur,
  mutations ops (timeline b U past cur [])
  = timeline b U (past ++ surfaces_before ops cur) (surface_after ops cur) [].
Proof.
  induction ops as [|f ops IH]; intros past cur.
  - simpl. now rewrite app_nil_r.
  - unfold mutations in *. simpl. rewrite timeline_mutation, IH.
    now rewrite <- app_assoc.
Qed.

Lemma length_surfaces_before (ops : list (Surface -> Surface)) : forall s,
  length (surfaces_before ops s) = length ops.
Proof. induction ops as [|f ops IH]; intros s; simpl; [reflexivity | now rewrite IH]. Qed.

(** A decoded snapshot, drawn on the cleared canvas, gives back the
    surface it was taken from: the encoding is lossless and the image
    covers the canvas. *)
Hypothesis snapshot_faithful :
  forall s s' : Surface, drawImage (toDataURL s) (clearRect s') = s.

Lemma timeline_undo (b : Home Surface) U past prev cur future :
  undo_loaded (timeline b U (past ++ [prev]) cur future)
  = timeline b U past prev (cur :: future).
Proof.
  unfold undo_loaded, settle, undo, timeline. simpl.
  rewrite map_app, app_assoc. simpl. rewrite last_snoc, removelast_last.
  unfold loadState_onload. simpl. now rewrite snapshot_faithful, map_app.
Qed.

Lemma timeline_redo (b : Home Surface) U past cur next future :
  redo_loaded (timeline b U past cur (next :: future))
  = timeline b U (past ++ [cur]) next future.
Proof.
  unfold redo_loaded, settle, redo, timeline. simpl.
  rewrite map_app. simpl. rewrite last_snoc, removelast_last.
  unfold loadState_onload. simpl.
  now rewrite snapshot_faithful, map_app, app_assoc.
Qed.

(** As many undos as there are surfaces in [l] walk back over [l]. *)
Lemma timeline_undo_iter (b : Home Surface) U past l : forall cur future,
  Nat.iter (length l) undo_loaded (timeline b U (past ++ l) cur future)
  = timeline b U past (hd cur l) (tl (l ++ [cur]) ++ future).
Proof.
  induction l as [|prev l IH] using rev_ind; intros cur future.
  - simpl. now rewrite app_nil_r.
  - rewrite length_app, Nat.add_comm. cbn [length Nat.add].
    rewrite Nat.iter_succ_r, app_assoc, timeline_undo, IH.
    destruct l as [|x l]; simpl; [reflexivity|].
    now rewrite <- !app_assoc.
Qed.

(** As many redos walk forward again. *)
Lemma timeline_redo_iter (b : Home Surface) U l cur future : forall past,
  Nat.iter (length l) redo_loaded
    (timeline b U past (hd cur l) (tl (l ++ [cur]) ++ future))
  = timeline b U (past ++ l) cur future.
Proof.
  induction l as [|x l IH]; intros past.
  - simpl. now rewrite app_nil_r.
  - cbn [length]. rewrite Nat.iter_succ_r.
    replace (timeline b U (past ++ x :: l) cur future)
      with (timeline b U ((past ++ [x]) ++ l) cur future)
      by now rewrite <- app_assoc.
    rewrite <- IH. f_equal.
    destruct l as [|y l]; simpl; apply timeline_redo.
Qed.

(** C1, amended: a sequence of mutating operations, each preceded by
    [saveState], then as many undos as operations, each one made when
    the image loaded by the one before has been drawn, brings the
    canvas and the undo stack back to what they were before the
    sequence; as many redos, made under the same condition, then bring
    the whole state back to what it was after the sequence.  A decoded
    snapshot is taken to redraw the surface it was made from. *)
Theorem undo_redo_round_trip (ops : list (Surface -> Surface)) (st : Home Surface) :
  let n := length ops in
  let final := mutations ops st in
  let undone := Nat.iter n undo_loaded final in
  canvasRef undone = canvasRef st
  /\ undoStack undone = undoStack st
  /\ Nat.iter n redo_loaded undone = final.
Proof.
  cbv zeta.
  destruct (canvasRef st) as [c|] eqn:Hc.
  - destruct ops as [|f ops]; [simpl; auto|].
    assert (Hfinal : mutations (f :: ops) st
                     = timeline st (undoStack st) ([] ++ c :: surfaces_before ops (f c))
                         (surface_after ops (f c)) []).
    { unfold mutations. simpl. rewrite (first_mutation st c f Hc).
      apply timeline_mutations. }
    assert (Hlen : length (f :: ops) = length (c :: surfaces_before ops (f c))).
    { simpl. now rewrite length_surfaces_before. }
    rewrite Hfinal, Hlen, timeline_undo_iter.
    split; [reflexivity|]. split.
    + unfold timeline. simpl. apply app_nil_r.
    + apply timeline_redo_iter.
  - rewrite mutations_unmounted by exact Hc.
    assert (Hu : undo_loaded st = st).
    { unfold undo_loaded. now rewrite undo_unmounted. }
    assert (Hr : redo_loaded st = st).
    { unfold redo_loaded. now rewrite redo_unmounted. }
    rewrite (iter_fixed _ _ _ Hu), (iter_fixed _ _ _ Hr). auto.
Qed.

End HistoryProperties.

(** Two strokes on the example canvas, undone and redone. *)
Lemma undo_redo_round_trip_witness :
  (forall s s' : jsstring, text_drawImage (text_toDataURL s) (text_clearRect s') = s)
  /\ (let ops := [fun _ : jsstring => js "stroke"; fun s => s ++ js "+dot"] in
      let final := mutations text_toDataURL ops fresh in
      let undone := Nat.iter 2 (undo_loaded text_toDataURL text_clearRect text_drawImage) final in
      canvasRef final = Some (js "stroke+dot")
      /\ canvasRef undone = Some (js "white")
      /\ undoStack undone = []
      /\ Nat.iter 2 (redo_loaded text_toDataURL text_clearRect text_drawImage) undone = final).
Proof.
  assert (H : forall s s' : jsstring,
             text_drawImage (text_toDataURL s) (text_clearRect s') = s)
    by reflexivity.
  split; [exact H|].
  pose proof (undo_redo_round_trip text_toDataURL text_clearRect text_drawImage H
                [fun _ : jsstring => js "stroke"; fun s => s ++ js "+dot"] fresh)
    as (Hc & Hu & Hr).
  cbv zeta. split; [reflexivity|]. split; [exact Hc|]. split; [exact Hu | exact Hr].
Defined.

(** C1, as stated, fails: [undo] takes the snapshot for [redoStack] from
    the canvas at the time of the click, and the canvas is redrawn only
    when the image has loaded.  Two strokes, then two undo clicks
    before either image has loaded: both clicks push the picture of the
    final canvas.  Once the two images are drawn the canvas is the
    white one, but the first redo brings back the final picture, not
    the picture after the first stroke, and after the two redos
    [undoStack] holds the final picture in place of it: the state is
    not the one after the strokes. *)
Lemma undo_clicks_before_load :
  let undo_click := fun st => fst (undo text_toDataURL st) in
  let loaded := loadState_onload text_clearRect text_drawImage in
  let redo_loaded := redo_loaded text_toDataURL text_clearRect text_drawImage in
  let final := mutations text_toDataURL
                 [fun _ : jsstring => js "stroke"; fun s => s ++ js "+dot"] fresh in
  let clicked := undo_click (undo_click final) in
  let undone := loaded (js "white") (loaded (js "stroke") clicked) in
  undoStack final = [js "white"; js "stroke"]
  /\ snd (undo text_toDataURL final) = Some (js "stroke")
  /\ snd (undo text_toDataURL (undo_click final)) = Some (js "white")
  /\ redoStack clicked = [js "stroke+dot"; js "stroke+dot"]
  /\ canvasRef undone = Some (js "white")
  /\ canvasRef (redo_loaded undone) = Some (js "stroke+dot")
  /\ undoStack (redo_loaded (redo_loaded undone)) = [js "white"; js "stroke+dot"]
  /\ redo_loaded (redo_loaded undone) <> final.
Proof.
  cbv zeta. repeat (split; [reflexivity|]).
  intros H. apply (f_equal undoStack) in H. vm_compute in H. discriminate H.
Qed.

(** The scenario of the specification: two snapshots and two mutations;
    the first undo shows the surface before the second mutation, the
    second undo the surface before the first; two redos go forward
    again. *)
Example two_snapshots_scenario :
  let U := undo_loaded text_toDataURL text_clearRect text_drawImage in
  let R := redo_loaded text_toDataURL text_clearRect text_drawImage in
  let final := mutations text_toDataURL
                 [fun _ : jsstring => js "stroke"; fun s => s ++ js "+dot"] fresh in
  canvasRef (U final) = Some (js "stroke")
  /\ canvasRef (U (U final)) = Some (js "white")
  /\ canvasRef (R (U (U final))) = Some (js "stroke")
  /\ R (R (U (U final))) = final.
Proof. repeat split. Qed.

(** Undo with an empty stack changes nothing. *)
Lemma undo_empty {Surface : Type} (toDataURL : Surface -> jsstring) (st : Home Surface) :
  undoStack st = [] -> undo toDataURL st = (st, None).
Proof. unfold undo. now intros ->. Qed.

(** C2, as stated, fails: after a stroke, an undo, and a submission that
    ends on the key screen, no canvas is mounted and [redoStack] holds
    one snapshot; [saveState] then returns at once and the stack is
    not emptied. *)
Lemma saveState_unmounted_keeps_redo :
  canvasRef key_screen = None
  /\ redoStack key_screen = [js "stroke"]
  /\ redoStack (saveState text_toDataURL key_screen) = [js "stroke"]
  /\ redoStack (saveState text_toDataURL key_screen) <> [].
Proof. repeat split; try (vm_compute; reflexivity). vm_compute. discriminate. Qed.

Lemma saveState_then_redo_witness :
  canvasRef stroke_undone = Some (js "white")
  /\ redoStack stroke_undone = [js "stroke"]
  /\ redoStack (saveState text_toDataURL stroke_undone) = []
  /\ redo text_toDataURL (saveState text_toDataURL stroke_undone)
     = (saveState text_toDataURL stroke_undone, None).
Proof.
  destruct (saveState_then_redo text_toDataURL stroke_undone) as (Hm & _ & Hr & _).
  assert (Hc : canvasRef stroke_undone = Some (js "white")) by reflexivity.
  split; [exact Hc|]. split; [reflexivity|].
  split; [exact (proj1 (Hm _ Hc)) | exact Hr].
Defined.

(** ** Submission *)

Section SubmitProperties.

Context {Surface : Type}.

Lemma handleSubmit_unmounted (out : GenOutcome) (st : Home Surface) :
  canvasRef st = None -> handleSubmit out st = st.
Proof. unfold handleSubmit, handleSubmit_begin. now intros ->. Qed.

Lemma handleSubmit_mounted (out : GenOutcome) (st : Home Surface) (c : Surface) :
  canvasRef st = Some c ->
  handleSubmit out st = handleSubmit_resume out (set_isLoading true st).
Proof. unfold handleSubmit, handleSubmit_begin. now intros ->. Qed.

(** The resumed handler never writes the canvas or the stacks. *)
Lemma handleSubmit_resume_history (out : GenOutcome) (st : Home Surface) :
  let st' := handleSubmit_resume out st in
  canvasRef st' = canvasRef st
  /\ undoStack st' = undoStack st
  /\ redoStack st' = redoStack st.
Proof.
  unfold handleSubmit_resume.
  destruct out as [message | parts]; simpl.
  - destruct (includes entity_not_found _); simpl; auto.
  - destruct (imageData_of parts) as [d|]; [destruct (nonempty d)|]; simpl; auto.
Qed.

Lemma handleSubmit_resume_failing (out : GenOutcome) (st : Home Surface) :
  failing out = true ->
  let st' := handleSubmit_resume out st in
  generatedImage st' = generatedImage st
  /\ hasKey st' = (if key_error out then Some false else hasKey st)
  /\ isLoading st' = false.
Proof.
  unfold handleSubmit_resume, failing, has_image, key_error.
  destruct out as [[m|] | parts]; simpl.
  - intros _. unfold or_else. destruct (nonempty m) eqn:Hm.
    + destruct (includes entity_not_found m); simpl; auto.
    + destruct m; [|discriminate]. simpl. auto.
  - intros _. simpl. auto.
  - destruct (imageData_of parts) as [d|]; [destruct (nonempty d)|]; simpl;
      intros H; try discriminate; auto.
Qed.

(** The cells of the history and the key after a failing call. *)
Lemma handleSubmit_failing_cells (out : GenOutcome) (st : Home Surface) :
  failing out = true ->
  canvasRef (handleSubmit out st) = canvasRef st
  /\ undoStack (handleSubmit out st) = undoStack st
  /\ redoStack (handleSubmit out st) = redoStack st
  /\ generatedImage (handleSubmit out st) = generatedImage st
  /\ hasKey (handleSubmit out st)
     = (if key_error out && mounted st then Some false else hasKey st).
Proof.
  intros Hf. unfold mounted.
  destruct (canvasRef st) as [c|] eqn:Hc.
  - rewrite (handleSubmit_mounted out st c Hc).
    destruct (handleSubmit_resume_history out (set_isLoading true st)) as (H1 & H2 & H3).
    destruct (handleSubmit_resume_failing out (set_isLoading true st) Hf) as (H4 & H5 & _).
    rewrite H1, H2, H3, H4, H5, andb_true_r. simpl. rewrite Hc. auto.
  - rewrite (handleSubmit_unmounted out st Hc), Hc, andb_false_r. auto.
Qed.

Lemma or_else_nil (m : jsstring) : or_else m [] = m.
Proof. now destruct m. Qed.

(** The loading flag and the display after a failing call on a mounted
    canvas. *)
Lemma handleSubmit_failing_display (out : GenOutcome) (st : Home Surface) (c : Surface) :
  failing out = true -> canvasRef st = Some c ->
  isLoading (handleSubmit out st) = false
  /\ match out with
     | Thrown message =>
         showErrorModal (handleSubmit out st) = true
         /\ errorMessage (handleSubmit out st)
            = (if key_error out then key_message
               else or_else (thrown_message message) unexpected_message)
         /\ alerts (handleSubmit out st) = alerts st
     | Responded _ =>
         alerts (handleSubmit out st) = alerts st ++ [no_image_alert]
         /\ showErrorModal (handleSubmit out st) = showErrorModal st
         /\ errorMessage (handleSubmit out st) = errorMessage st
     end.
Proof.
  intros Hf Hc. rewrite (handleSubmit_mounted out st c Hc).
  split; [reflexivity|].
  destruct out as [[m|] | parts].
  - unfold handleSubmit_resume, key_error, thrown_message.
    rewrite or_else_nil.
    destruct (includes entity_not_found m); cbn; auto.
  - unfold handleSubmit_resume, key_error, thrown_message.
    change (includes entity_not_found []) with false. cbn. auto.
  - unfold failing, has_image in Hf. unfold handleSubmit_resume.
    destruct (imageData_of parts) as [d|]; [destruct (nonempty d)|];
      try discriminate Hf; cbn; auto.
Qed.

(** C8, amended: on a failing generation call (a response without an
    image payload, or a thrown error whose message is a string or
    absent) [handleSubmit] writes neither the canvas nor [undoStack]
    nor [redoStack], and keeps [generatedImage].  With no canvas mounted
    it returns at once and changes nothing.  With a canvas mounted it
    ends with the loading flag off and shows the failure: for a
    response without an image, one alert, the modal and the message
    being left alone; for a thrown error, the modal, with the thrown
    message, or the fallback text when that message is empty or absent,
    the alerts being left alone.  When the thrown message contains the
    text of the key error the message shown is the key text and
    [hasKey] is reset to false as well; in every other case [hasKey] is
    kept, so that only the loading flag and the display differ. *)
Theorem handleSubmit_failure_frame (out : GenOutcome) (st : Home Surface) :
  failing out = true ->
  let st' := handleSubmit out st in
  canvasRef st' = canvasRef st
  /\ undoStack st' = undoStack st
  /\ redoStack st' = redoStack st
  /\ generatedImage st' = generatedImage st
  /\ hasKey st' = (if key_error out && mounted st then Some false else hasKey st)
  /\ (key_error out = false -> only_display_differs st st')
  /\ (mounted st = false -> st' = st)
  /\ (mounted st = true ->
      isLoading st' = false
      /\ match out with
         | Thrown message =>
             showErrorModal st' = true
             /\ errorMessage st'
                = (if key_error out then key_message
                   else or_else (thrown_message message) unexpected_message)
             /\ alerts st' = alerts st
         | Responded _ =>
             alerts st' = alerts st ++ [no_image_alert]
             /\ showErrorModal st' = showErrorModal st
             /\ errorMessage st' = errorMessage st
         end).
Proof.
  intros Hf. cbv zeta.
  destruct (handleSubmit_failing_cells out st Hf) as (H1 & H2 & H3 & H4 & H5).
  do 5 (split; [assumption|]).
  split; [intros Hk; rewrite Hk in H5; unfold only_display_differs; auto|].
  unfold mounted. destruct (canvasRef st) as [c|] eqn:Hc.
  - split; [intros H; discriminate H|]. intros _.
    now apply (handleSubmit_failing_display out st c).
  - split; [intros _; now apply handleSubmit_unmounted | intros H; discriminate H].
Qed.

(** After a failure other than the key error the next render keeps the
    canvas, provided a key was selected. *)
Lemma other_failure_keeps_canvas (blank : Surface) (out : GenOutcome) (st : Home Surface) :
  failing out = true -> key_error out = false ->
  hasKey st <> Some false -> mounted st = true ->
  canvasRef (render_commit blank (handleSubmit out st)) = canvasRef st.
Proof.
  intros Hf Hk Hkey Hm.
  destruct (handleSubmit_failing_cells out st Hf) as (Hc & _ & _ & _ & Hh).
  rewrite Hk in Hh. simpl in Hh.
  unfold render_commit. rewrite Hh, Hc.
  unfold mounted in Hm.
  destruct (hasKey st) as [[|]|]; destruct (canvasRef st); congruence.
Qed.

(** After the key error the next render shows the key screen: the
    canvas element is unmounted and its pixels go with it. *)
Lemma key_error_unmounts_canvas (blank : Surface) (out : GenOutcome) (st : Home Surface) :
  key_error out = true -> mounted st = true ->
  canvasRef (render_commit blank (handleSubmit out st)) = None.
Proof.
  intros Hk Hm.
  assert (Hf : failing out = true) by (destruct out as [[m|]|]; simpl in *; congruence).
  destruct (handleSubmit_failing_cells out st Hf) as (_ & _ & _ & _ & Hh).
  rewrite Hk, Hm in Hh. simpl in Hh.
  unfold render_commit. now rewrite Hh.
Qed.

End SubmitProperties.

(** C8, as stated, fails: when the call throws the key error, the
    handler also resets [hasKey], which is neither the error display
    nor the loading state; the render that follows unmounts the
    canvas. *)
Lemma handleSubmit_key_error_resets_key :
  failing (Thrown (Some api_error)) = true
  /\ hasKey fresh = Some true
  /\ hasKey (handleSubmit (Thrown (Some api_error)) fresh) = Some false
  /\ ~ only_display_differs fresh (handleSubmit (Thrown (Some api_error)) fresh)
  /\ canvasRef (render_commit [] (handleSubmit (Thrown (Some api_error)) fresh)) = None.
Proof.
  split; [reflexivity|]. split; [reflexivity|].
  assert (H : hasKey (handleSubmit (Thrown (Some api_error)) fresh) = Some false)
    by (vm_compute; reflexivity).
  split; [exact H|]. split.
  - intros (_ & _ & _ & _ & Hk). rewrite H in Hk. discriminate.
  - vm_compute. reflexivity.
Qed.

Lemma handleSubmit_failure_frame_witness :
  failing (Responded (Some [{| inlineData := None |}])) = true
  /\ mounted stroke_undone = true
  /\ canvasRef (handleSubmit (Responded (Some [{| inlineData := None |}])) stroke_undone)
     = Some (js "white")
  /\ redoStack (handleSubmit (Responded (Some [{| inlineData := None |}])) stroke_undone)
     = [js "stroke"]
  /\ isLoading (handleSubmit (Responded (Some [{| inlineData := None |}])) stroke_undone)
     = false
  /\ alerts (handleSubmit (Responded (Some [{| inlineData := None |}])) stroke_undone)
     = [no_image_alert].
Proof.
  assert (Hf : failing (Responded (Some [{| inlineData := None |}])) = true) by reflexivity.
  assert (Hm : mounted stroke_undone = true) by reflexivity.
  destruct (handleSubmit_failure_frame
              (Responded (Some [{| inlineData := None |}])) stroke_undone Hf)
    as (Hc & _ & Hr & _ & _ & _ & _ & Hd).
  destruct (Hd Hm) as (Hl & Ha & _).
  split; [exact Hf|]. split; [exact Hm|]. split; [rewrite Hc; reflexivity|].
  split; [rewrite Hr; reflexivity|]. split; [exact Hl|].
  rewrite Ha. reflexivity.
Defined.

(** ** The voice pipeline *)

Lemma difference_referenced_None (X : gset nat) : X ∖ referenced None = X.
Proof. unfold referenced. set_solver. Qed.

(** What [stopListening] does, in one step. *)
Lemma stopListening_effect (st : Voice) :
  stopListening st =
    ({| isListening := false; audioContextRef := None; streamRef := None;
        processorRef := None; sessionPromiseRef := None; prompt := prompt st;
        running := running st ∖ referenced (audioContextRef st);
        live := live st ∖ referenced (streamRef st);
        connected := connected st ∖ referenced (processorRef st) |}, Normal).
Proof.
  destruct st as [l a s p e pr R L C].
  unfold stopListening.
  destruct a, s, p; cbn; rewrite ?difference_referenced_None; reflexivity.
Qed.

Lemma stopListening_Stopped (st : Voice) : Stopped (fst (stopListening st)).
Proof. rewrite stopListening_effect. unfold Stopped. simpl. auto. Qed.

Lemma stopListening_on_Stopped (st : Voice) :
  Stopped st -> stopListening st = (st, Normal).
Proof.
  intros (Hl & Ha & Hs & Hp & He). rewrite stopListening_effect.
  destruct st as [l a s p e pr R L C]. simpl in *. subst.
  now rewrite !difference_referenced_None.
Qed.

(** C5, as stated, fails: a call of [startListening] while the pipeline
    is listening returns normally and changes nothing; no error is
    raised. *)
Lemma startListening_twice_is_silent :
  isListening listening = true
  /\ startListening (Some 5) listening = (listening, Settled Normal)
  /\ forall e, snd (startListening (Some 5) listening) <> Settled (Throw e).
Proof. split; [reflexivity|]. split; [reflexivity|]. intros e. discriminate. Qed.

(** C5, amended: a call of [startListening] while [isListening] is set
    is a silent no-op: it returns normally, at once, and leaves the
    pipeline as it was. *)
Theorem startListening_guard (audioContext : option nat) (st : Voice) :
  isListening st = true ->
  startListening audioContext st = (st, Settled Normal).
Proof. intros H. unfold startListening. now rewrite H. Qed.

Lemma startListening_guard_witness :
  isListening listening = true
  /\ startListening (Some 5) listening = (listening, Settled Normal).
Proof.
  assert (H : isListening listening = true) by reflexivity.
  split; [exact H | exact (startListening_guard (Some 5) listening H)].
Defined.

(** C6: from every state [stopListening] returns normally and leaves
    the pipeline stopped, with the stream it held no longer live, the
    processor it held disconnected and the context it held closed; a
    second call changes nothing more; and on a stopped pipeline the call
    changes nothing at all. *)
Theorem stopListening_total_idempotent (st : Voice) :
  let st' := fst (stopListening st) in
  snd (stopListening st) = Normal
  /\ Stopped st'
  /\ (forall stream, streamRef st = Some stream -> stream ∉ live st')
  /\ (forall processor, processorRef st = Some processor -> processor ∉ connected st')
  /\ (forall audioContext, audioContextRef st = Some audioContext -> audioContext ∉ running st')
  /\ stopListening st' = (st', Normal)
  /\ (Stopped st -> st' = st).
Proof.
  cbv zeta.
  split; [now rewrite stopListening_effect|].
  split; [apply stopListening_Stopped|].
  split; [intros x Hx; rewrite stopListening_effect, Hx; cbn; set_solver|].
  split; [intros x Hx; rewrite stopListening_effect, Hx; cbn; set_solver|].
  split; [intros x Hx; rewrite stopListening_effect, Hx; cbn; set_solver|].
  split.
  - apply stopListening_on_Stopped, stopListening_Stopped.
  - intros H. now rewrite (stopListening_on_Stopped st H).
Qed.

Lemma stopListening_total_idempotent_witness :
  Stopped initial
  /\ fst (stopListening initial) = initial
  /\ streamRef streaming = Some 2
  /\ 2 ∉ live (fst (stopListening streaming)).
Proof.
  assert (H : Stopped initial) by (unfold Stopped; simpl; auto).
  assert (Hs : streamRef streaming = Some 2) by reflexivity.
  destruct (stopListening_total_idempotent initial) as (_ & _ & _ & _ & _ & _ & Hi).
  destruct (stopListening_total_idempotent streaming) as (_ & _ & Hl & _).
  split; [exact H|]. split; [exact (Hi H)|]. split; [exact Hs | exact (Hl 2 Hs)].
Defined.

(** An open session owns what is in use. *)
Lemma one_start_owned (st : Voice) : opened_by_one_start st -> owned st.
Proof.
  induction 1 as [base a s p n (Hl & Ha & Hs & Hp & He) (HL & HC & HR)
                 | st m _ IH | st v _ IH].
  - destruct base as [l a0 s0 p0 e0 pr R L C]. simpl in *. subst.
    unfold owned. cbn. unfold referenced. set_solver.
  - exact IH.
  - exact IH.
Qed.

Lemma owned_released_after_stop (st : Voice) :
  owned st -> released (fst (stopListening st)).
Proof.
  intros (HL & HC & HR). rewrite stopListening_effect.
  unfold released. cbn. set_solver.
Qed.

(** What the teardown does guarantee.  When the session closes or
    fails, the step taken leaves the pipeline stopped (not listening,
    every reference cleared, the session reference among them) and
    releases what the references designated: the stream is no longer
    live, the processor is disconnected, the context is closed.  When
    the session was opened by one start, nothing else was in use, and
    no microphone stream is live afterwards. *)
Theorem teardown_on_close_or_error (ev : VoiceEvent) (st : Voice) :
  ev = SessionClose \/ (exists e, ev = SessionError e) ->
  let st' := step ev st in
  Stopped st'
  /\ live st' = live st ∖ referenced (streamRef st)
  /\ connected st' = connected st ∖ referenced (processorRef st)
  /\ running st' = running st ∖ referenced (audioContextRef st)
  /\ (opened_by_one_start st -> released st').
Proof.
  intros Hev. cbv zeta.
  assert (Hstep : step ev st = fst (stopListening st))
    by (destruct Hev as [-> | [e ->]]; reflexivity).
  rewrite Hstep.
  split; [apply stopListening_Stopped|].
  split; [now rewrite stopListening_effect|].
  split; [now rewrite stopListening_effect|].
  split; [now rewrite stopListening_effect|].
  intros Hopen. now apply owned_released_after_stop, one_start_owned.
Qed.

Lemma teardown_on_close_or_error_witness :
  opened_by_one_start streaming
  /\ live streaming = {[2]}
  /\ Stopped (step (SessionError (js "transport")) streaming)
  /\ released (step (SessionError (js "transport")) streaming).
Proof.
  assert (Hopen : opened_by_one_start streaming).
  { apply (one_start_opened initial 1 2 3 4);
      [unfold Stopped | unfold released]; simpl; auto. }
  destruct (teardown_on_close_or_error (SessionError (js "transport")) streaming
              (or_intror (ex_intro _ (js "transport") eq_refl)))
    as (Hs & _ & _ & _ & Hr).
  split; [exact Hopen|]. split; [cbn; set_solver|].
  split; [exact Hs | exact (Hr Hopen)].
Defined.

(** C7, at the failing input: a start, a stop and a second start while
    the first request for the microphone is pending, both requests
    granted, the second session open.  [streamRef] was overwritten by
    the second grant, so the teardown run by [onerror] or [onclose]
    stops the second stream only: the pipeline is stopped, every
    reference is cleared, and the first stream is still live.  The
    microphone stays in use after the event. *)
Remark overlapping_starts_keep_a_stream :
  let st := run overlapping_starts initial in
  (isListening st = true /\ streamRef st = Some 11
   /\ sessionPromiseRef st = Some 21 /\ processorRef st = Some 30
   /\ live st = {[10; 11]})
  /\ (Stopped (step (SessionError (js "transport")) st)
      /\ live (step (SessionError (js "transport")) st) = {[10]}
      /\ ~ released (step (SessionError (js "transport")) st))
  /\ (Stopped (step SessionClose st)
      /\ live (step SessionClose st) = {[10]}
      /\ ~ released (step SessionClose st)).
Proof.
  cbv zeta.
  assert (Hl : live (run overlapping_starts initial) = {[10; 11]})
    by (cbn; set_solver).
  assert (Hs : streamRef (run overlapping_starts initial) = Some 11) by reflexivity.
  assert (H : live (fst (stopListening (run overlapping_starts initial))) = {[10]}).
  { rewrite stopListening_effect. cbn [fst live]. rewrite Hl, Hs.
    unfold referenced. set_solver. }
  assert (Hn : ~ released (fst (stopListening (run overlapping_starts initial)))).
  { intros (Hr & _). rewrite H in Hr. set_solver. }
  split; [repeat split; try reflexivity; exact Hl|].
  change (step (SessionError (js "transport")) (run overlapping_starts initial))
    with (fst (stopListening (run overlapping_starts initial))).
  change (step SessionClose (run overlapping_starts initial))
    with (fst (stopListening (run overlapping_starts initial))).
  pose proof (stopListening_Stopped (run overlapping_starts initial)) as Hst.
  split; (split; [exact Hst|]; split; [exact H | exact Hn]).
Qed.

(* ===================================================================== *)
(** * Part III. Further properties of the component                       *)
(* ===================================================================== *)

(** ** Merging in pieces *)

Lemma last_app_nonempty (p a : jsstring) :
  a <> [] -> last (p ++ a) = last a.
Proof.
  intros Ha. destruct (exists_last Ha) as (a' & x & ->).
  rewrite (assoc_L (++) p a' [x]). now rewrite !last_snoc.
Qed.

Lemma mergeFragment_nil_l (text : jsstring) : mergeFragment [] text = text.
Proof. reflexivity. Qed.

Lemma last_mergeFragment (p a : jsstring) :
  a <> [] -> last (mergeFragment p a) = last a.
Proof.
  intros Ha. rewrite mergeFragment_unfold, app_assoc.
  now apply last_app_nonempty.
Qed.

Lemma mergeFragment_nonempty (p a : jsstring) :
  a <> [] -> nonempty (mergeFragment p a) = true.
Proof.
  intros Ha. rewrite mergeFragment_unfold.
  destruct p; simpl; [|reflexivity]. now apply nonempty_true.
Qed.

(** X1: merging is associative: merging a fragment [a] into the prompt
    and then a fragment [b] gives the prompt that merging the text
    [mergeFragment a b] (the two fragments joined by the rule of the
    merge itself) gives.  This holds for [onmessage] too when both
    fragments are not empty. *)
Theorem mergeFragment_assoc (p a b : jsstring) :
  mergeFragment (mergeFragment p a) b = mergeFragment p (mergeFragment a b)
  /\ (a <> [] -> b <> [] ->
      onmessage {| inputTranscription := Some (Some b) |}
        (onmessage {| inputTranscription := Some (Some a) |} p)
      = onmessage {| inputTranscription := Some (Some (mergeFragment a b)) |} p).
Proof.
  assert (Hassoc : mergeFragment (mergeFragment p a) b
                   = mergeFragment p (mergeFragment a b)).
  { destruct a as [|x a].
    - rewrite mergeFragment_nil_l.
      rewrite (mergeFragment_unfold p []), app_nil_r.
      rewrite (mergeFragment_unfold p b).
      destruct (nonempty p) eqn:Hp; simpl.
      + case_bool_decide as Hl; simpl.
        * rewrite app_nil_r, mergeFragment_unfold, Hp.
          rewrite bool_decide_true by exact Hl. reflexivity.
        * rewrite mergeFragment_unfold.
          rewrite last_snoc.
          assert (Hne : nonempty (p ++ [SPACE]) = true) by (now destruct p).
          rewrite Hne, bool_decide_true by reflexivity.
          simpl. now rewrite <- app_assoc.
      + destruct p; [|discriminate]. reflexivity.
    - set (a' := x :: a).
      assert (Ha : a' <> []) by discriminate.
      rewrite (mergeFragment_unfold (mergeFragment p a') b).
      rewrite (last_mergeFragment p a' Ha), (mergeFragment_nonempty p a' Ha).
      rewrite (mergeFragment_unfold p (mergeFragment a' b)).
      rewrite (mergeFragment_unfold a' b).
      rewrite (mergeFragment_unfold p a').
      replace (nonempty a') with true by reflexivity.
      now rewrite <- !app_assoc. }
  split; [exact Hassoc|].
  intros Ha Hb. unfold onmessage. simpl.
  apply nonempty_true in Ha as Ha', Hb as Hb'. rewrite Ha', Hb'.
  rewrite (mergeFragment_nonempty a b Hb). exact Hassoc.
Qed.

Lemma mergeFragment_assoc_witness :
  js "turn" <> [] /\ js "the" <> []
  /\ onmessage {| inputTranscription := Some (Some (js "the")) |}
       (onmessage {| inputTranscription := Some (Some (js "turn")) |} (js "now"))
     = onmessage {| inputTranscription := Some (Some (js "turn the")) |} (js "now").
Proof.
  assert (Ha : js "turn" <> []) by discriminate.
  assert (Hb : js "the" <> []) by discriminate.
  split; [exact Ha|]. split; [exact Hb|].
  exact (proj2 (mergeFragment_assoc (js "now") (js "turn") (js "the")) Ha Hb).
Defined.

(** ** The voice pipeline: frames and failures *)

Lemma prompt_stopListening (st : Voice) : prompt (fst (stopListening st)) = prompt st.
Proof. now rewrite stopListening_effect. Qed.

Lemma prompt_startListening (c : option nat) (st : Voice) :
  prompt (fst (startListening c st)) = prompt st.
Proof.
  unfold startListening. destruct (isListening st); [reflexivity|].
  destruct c; cbn [fst]; [reflexivity|]. now rewrite prompt_stopListening.
Qed.

(** X2: the prompt is written by messages and by typing only: no other
    event of the voice subsystem (the button, the microphone answer, the
    opening, closing or failure of the session, the unmounting) changes
    it; and a message changes nothing but the prompt. *)
Theorem prompt_frame (ev : VoiceEvent) (st : Voice) :
  ((forall m, ev <> SessionMessage m) -> (forall v, ev <> PromptInput v) ->
   prompt (step ev st) = prompt st)
  /\ (forall m, ev = SessionMessage m ->
      step ev st = set_prompt (prompt (step ev st)) st).
Proof.
  split.
  - intros Hm Hv. destruct ev as [v|c|mic s|p|m| |e| ]; simpl.
    + now destruct (Hv v).
    + unfold toggleListening. destruct (isListening st).
      * apply prompt_stopListening.
      * apply prompt_startListening.
    + unfold startListening_resume. destruct mic as [stream|err].
      * destruct s; cbn [fst]; [reflexivity|]. now rewrite prompt_stopListening.
      * apply prompt_stopListening.
    + reflexivity.
    + now destruct (Hm m).
    + apply prompt_stopListening.
    + apply prompt_stopListening.
    + apply prompt_stopListening.
  - intros m ->. reflexivity.
Qed.

Lemma prompt_frame_witness :
  prompt (step (MicButton None) (set_prompt (js "a red roof") streaming)) = js "a red roof".
Proof.
  rewrite (proj1 (prompt_frame (MicButton None) (set_prompt (js "a red roof") streaming)));
    [reflexivity | discriminate | discriminate].
Defined.

Lemma stopped_released_shape (base : Voice) :
  Stopped base -> released base ->
  base = {| isListening := false; audioContextRef := None; streamRef := None;
            processorRef := None; sessionPromiseRef := None; prompt := prompt base;
            running := ∅; live := ∅; connected := ∅ |}.
Proof.
  intros (Hl & Ha & Hs & Hp & He) (HL & HC & HR).
  destruct base as [l a s p e pr R L C]. simpl in *. now subst.
Qed.

Lemma Stopped_released_after_stop (st : Voice) :
  owned st -> Stopped (fst (stopListening st)) /\ released (fst (stopListening st)).
Proof.
  intros H. split; [apply stopListening_Stopped | now apply owned_released_after_stop].
Qed.

(** X3: a start that fails leaves nothing behind.  From the stopped
    pipeline with nothing in use, each of the three failures (the audio
    context cannot be built, the microphone is refused, the connection
    call throws) ends in the stopped pipeline with nothing in use: the
    context built before the failure is closed, the stream granted
    before it is stopped; the prompt is kept. *)
Theorem failed_start_cleans_up (base : Voice) (c stream : nat) (err : jsstring)
        (session : option nat) :
  Stopped base -> released base ->
  run [MicButton None] base = base
  /\ run [MicButton (Some c); MicrophoneSettled (Refused err) session] base = base
  /\ run [MicButton (Some c); MicrophoneSettled (Granted stream) None] base = base.
Proof.
  intros Hs Hr. rewrite (stopped_released_shape base Hs Hr).
  unfold run. cbn.
  assert (He : forall x : nat, ((∅ : gset nat) ∪ {[x]}) ∖ {[x]} = ∅) by set_solver.
  rewrite !He. repeat split.
Qed.

Lemma failed_start_cleans_up_witness :
  Stopped initial /\ released initial
  /\ run [MicButton (Some 1); MicrophoneSettled (Refused (js "NotAllowedError")) (Some 3)]
       initial = initial.
Proof.
  assert (Hs : Stopped initial) by (unfold Stopped; simpl; auto).
  assert (Hr : released initial) by (unfold released; simpl; auto).
  split; [exact Hs|]. split; [exact Hr|].
  exact (proj1 (proj2 (failed_start_cleans_up initial 1 2 (js "NotAllowedError")
                         (Some 3) Hs Hr))).
Defined.



Lemma one_start_listening (st : Voice) : opened_by_one_start st -> isListening st = true.
Proof.
  induction 1 as [base a s p n (Hl & Ha & Hs & Hp & He) _ | st m _ IH | st v _ IH].
  - destruct base as [l a0 s0 p0 e0 pr R L C]. simpl in *. subst. reflexivity.
  - exact IH.
  - exact IH.
Qed.

(** X5: when the session was opened by one start (the stopped pipeline
    with nothing in use, started once, with no other start overlapping
    it), the microphone button and the unmounting of the component stop
    the pipeline and release the microphone, the processor and the
    audio context; the prompt keeps what was merged into it. *)
Theorem user_stop_releases (st : Voice) (x : option nat) :
  opened_by_one_start st ->
  (Stopped (step (MicButton x) st) /\ released (step (MicButton x) st)
   /\ prompt (step (MicButton x) st) = prompt st)
  /\ (Stopped (step Unmount st) /\ released (step Unmount st)
      /\ prompt (step Unmount st) = prompt st).
Proof.
  intros Hopen.
  pose proof (one_start_owned st Hopen) as Hown.
  pose proof (one_start_listening st Hopen) as Hl.
  assert (Hb : step (MicButton x) st = fst (stopListening st))
    by (simpl; unfold toggleListening; now rewrite Hl).
  rewrite Hb. change (step Unmount st) with (fst (stopListening st)).
  destruct (Stopped_released_after_stop st Hown) as (H1 & H2).
  pose proof (prompt_stopListening st) as H3. auto.
Qed.

Lemma user_stop_releases_witness :
  opened_by_one_start streaming
  /\ released (step (MicButton None) streaming).
Proof.
  assert (Hopen : opened_by_one_start streaming).
  { apply (one_start_opened initial 1 2 3 4);
      [unfold Stopped | unfold released]; simpl; auto. }
  split; [exact Hopen|].
  exact (proj1 (proj2 (proj1 (user_stop_releases streaming None Hopen)))).
Defined.

(** ** The quantizer on the whole range of inputs *)

(** Every stored value is a signed 16-bit integer, whatever the sample
    (out of range, infinite or NaN). *)
Lemma quantize_int16 (x : jsnumber) : (-32768 <= quantize x <= 32767)%Z.
Proof.
  unfold quantize, ToInt16. destruct x as [q| | |]; simpl; try lia.
  pose proof (Z.mod_pos_bound (truncate (q * 32768)) 65536 ltac:(lia)).
  destruct (Z.leb_spec 32768 (truncate (q * 32768) mod 65536)); lia.
Qed.

Lemma quantize_in_range (q : Q) :
  (-1 <= q)%Q -> (q < 1)%Q -> quantize (Finite q) = truncate (q * 32768).
Proof.
  intros Hlo Hhi. pose proof (truncate_scaled_bounds q Hlo Hhi) as Hb.
  unfold quantize, times_32768, ToInt16.
  destruct (Z_le_gt_dec 0 (truncate (q * 32768))) as [Hs | Hs].
  - rewrite Z.mod_small by lia.
    destruct (Z.leb_spec 32768 (truncate (q * 32768))); lia.
  - replace (truncate (q * 32768) mod 65536)%Z with (truncate (q * 32768) + 65536)%Z.
    + destruct (Z.leb_spec 32768 (truncate (q * 32768) + 65536)); lia.
    + apply Z.mod_unique with (q := (-1)%Z); lia.
Qed.

Lemma truncate_floor (q : Q) : (0 <= Qnum q)%Z -> truncate q = Qfloor q.
Proof. destruct q as [a b]. cbn [Qnum]. intros Ha. now rewrite truncate_nonneg. Qed.

Lemma truncate_ceiling (q : Q) : (Qnum q <= 0)%Z -> truncate q = Qceiling q.
Proof. destruct q as [a b]. cbn [Qnum]. intros Ha. now rewrite truncate_neg. Qed.

Lemma truncate_mono (x y : Q) : (x <= y)%Q -> (truncate x <= truncate y)%Z.
Proof.
  intros H.
  assert (Hn : (Qnum x * Z.pos (Qden y) <= Qnum y * Z.pos (Qden x))%Z) by exact H.
  destruct (Z_le_gt_dec 0 (Qnum x)) as [Hx | Hx].
  - assert (Hy : (0 <= Qnum y)%Z) by nia.
    rewrite !truncate_floor by assumption. now apply Qfloor_resp_le.
  - destruct (Z_le_gt_dec (Qnum y) 0) as [Hy | Hy].
    + rewrite !truncate_ceiling by lia. now apply Qceiling_resp_le.
    + rewrite (truncate_ceiling x), (truncate_floor y) by lia.
      destruct x as [a b], y as [c d]. cbn in *.
      assert (0 <= - a / Z.pos b)%Z by (apply Z.div_pos; lia).
      assert (0 <= c / Z.pos d)%Z by (apply Z.div_pos; lia).
      unfold Qceiling, Qfloor. cbn. lia.
Qed.

Lemma truncate_opp (q : Q) : truncate (- q) = (- truncate q)%Z.
Proof.
  destruct q as [a b]. unfold truncate. cbn.
  apply Z.quot_opp_l. lia.
Qed.

(** X6: on samples from -1.0 up to, but not including, 1.0 the
    quantizer keeps the order of the samples; on samples strictly
    between -1.0 and 1.0 it is odd (a sample and its opposite are stored
    as opposite values); and silence and NaN are both stored as 0. *)
Theorem quantize_monotone_odd :
  (forall x y : Q, (-1 <= x)%Q -> (x <= y)%Q -> (y < 1)%Q ->
                   (quantize (Finite x) <= quantize (Finite y))%Z)
  /\ (forall x : Q, (-1 < x)%Q -> (x < 1)%Q ->
                    quantize (Finite (- x)) = (- quantize (Finite x))%Z)
  /\ quantize (Finite 0) = 0%Z
  /\ quantize NaN = 0%Z.
Proof.
  split; [|split; [|split; reflexivity]].
  - intros x y Hlo Hxy Hhi.
    rewrite !quantize_in_range;
      try (eapply Qle_trans; eassumption);
      try (eapply Qle_lt_trans; eassumption); try assumption.
    apply truncate_mono.
    apply Qmult_le_compat_r; [exact Hxy | discriminate].
  - intros x Hlo Hhi.
    assert (H1 : (-1 <= - x)%Q).
    { destruct x as [a b]. unfold Qle, Qlt in *. cbn in *. lia. }
    assert (H2 : (- x < 1)%Q).
    { destruct x as [a b]. unfold Qle, Qlt in *. cbn in *. lia. }
    rewrite !quantize_in_range; try assumption; [|now apply Qlt_le_weak].
    rewrite <- truncate_opp. f_equal.
    destruct x as [a b]. unfold Qmult, Qopp. cbn. f_equal. lia.
Qed.

Lemma quantize_monotone_odd_witness :
  (-1 <= -(1 # 2))%Q /\ (-(1 # 2) <= 1 # 4)%Q /\ (1 # 4 < 1)%Q
  /\ (quantize (Finite (-(1 # 2))) <= quantize (Finite (1 # 4)))%Z.
Proof.
  assert (H1 : (-1 <= -(1 # 2))%Q) by (unfold Qle; simpl; lia).
  assert (H2 : (-(1 # 2) <= 1 # 4)%Q) by (unfold Qle; simpl; lia).
  assert (H3 : (1 # 4 < 1)%Q) by (unfold Qlt; simpl; lia).
  split; [exact H1|]. split; [exact H2|]. split; [exact H3|].
  exact (proj1 quantize_monotone_odd _ _ H1 H2 H3).
Defined.

(** ** The bytes of a frame and their encoding *)

Lemma int16_bytes_is_byte (z : Z) : Forall is_byte (int16_bytes z).
Proof.
  unfold int16_bytes, is_byte.
  pose proof (Z.mod_pos_bound z 65536 ltac:(lia)).
  pose proof (Z.mod_pos_bound (z mod 65536) 256 ltac:(lia)).
  assert (0 <= z mod 65536 / 256 < 256)%Z.
  { split; [apply Z.div_pos; lia | apply Z.div_lt_upper_bound; lia]. }
  repeat constructor; lia.
Qed.

Lemma int16_bytes_inj (x y : Z) :
  (-32768 <= x <= 32767)%Z -> (-32768 <= y <= 32767)%Z ->
  int16_bytes x = int16_bytes y -> x = y.
Proof.
  intros Hx Hy. unfold int16_bytes. intros H.
  injection H as Hlo Hhi.
  pose proof (Z.mod_pos_bound x 65536 ltac:(lia)).
  pose proof (Z.mod_pos_bound y 65536 ltac:(lia)).
  pose proof (Z.mod_pos_bound (x mod 65536) 256 ltac:(lia)).
  pose proof (Z.mod_pos_bound (y mod 65536) 256 ltac:(lia)).
  assert (0 <= x mod 65536 / 256)%Z by (apply Z.div_pos; lia).
  assert (0 <= y mod 65536 / 256)%Z by (apply Z.div_pos; lia).
  apply Z2N.inj in Hlo; [|lia|lia]. apply Z2N.inj in Hhi; [|lia|lia].
  assert (Hm : (x mod 65536 = y mod 65536)%Z).
  { rewrite (Z.div_mod (x mod 65536) 256), (Z.div_mod (y mod 65536) 256) by lia.
    now rewrite Hlo, Hhi. }
  pose proof (Z.div_mod x 65536 ltac:(lia)).
  pose proof (Z.div_mod y 65536 ltac:(lia)).
  lia.
Qed.

Lemma Uint8Array_of_buffer_length (l : list Z) :
  length (Uint8Array_of_buffer l) = 2 * length l.
Proof.
  unfold Uint8Array_of_buffer.
  induction l as [|z l IH]; [reflexivity|]. cbn [flat_map length app int16_bytes].
  rewrite IH. lia.
Qed.

Lemma Uint8Array_of_buffer_bytes (l : list Z) : Forall is_byte (Uint8Array_of_buffer l).
Proof.
  unfold Uint8Array_of_buffer.
  induction l as [|z l IH]; [constructor|].
  cbn [flat_map]. apply Forall_app. split; [apply int16_bytes_is_byte | exact IH].
Qed.

Lemma Uint8Array_of_buffer_inj (l1 : list Z) : forall l2 : list Z,
  Forall (fun z => (-32768 <= z <= 32767)%Z) l1 ->
  Forall (fun z => (-32768 <= z <= 32767)%Z) l2 ->
  Uint8Array_of_buffer l1 = Uint8Array_of_buffer l2 -> l1 = l2.
Proof.
  unfold Uint8Array_of_buffer.
  induction l1 as [|x l1 IH]; intros [|y l2] H1 H2 H.
  - reflexivity.
  - discriminate.
  - discriminate.
  - apply Forall_cons in H1 as [Hx H1]. apply Forall_cons in H2 as [Hy H2].
    cbn [flat_map] in H.
    change (int16_bytes x) with
      [Z.to_N ((x mod 65536) mod 256); Z.to_N ((x mod 65536) / 256)] in H.
    change (int16_bytes y) with
      [Z.to_N ((y mod 65536) mod 256); Z.to_N ((y mod 65536) / 256)] in H.
    cbn [app] in H. injection H as Ha Hb Hrest.
    f_equal.
    + apply int16_bytes_inj; [exact Hx | exact Hy |].
      unfold int16_bytes. now rewrite Ha, Hb.
    + now apply IH.
Qed.

(** Lists, three elements at a time. *)
Lemma list_ind3 {A : Type} (P : list A -> Prop) :
  P [] -> (forall a, P [a]) -> (forall a b, P [a; b]) ->
  (forall a b c l, P l -> P (a :: b :: c :: l)) ->
  forall l, P l.
Proof.
  intros H0 H1 H2 H3 l.
  assert (H : P l /\ (forall a, P (a :: l)) /\ (forall a b, P (a :: b :: l))).
  { induction l as [|x l (IH0 & IH1 & IH2)]; [now auto|].
    split; [apply IH1|]. split; [intros a; apply IH2|].
    intros a b. now apply H3. }
  exact (proj1 H).
Qed.

Lemma b64_value_char (n : N) :
  (n < 64)%N ->
  b64_value (b64_char n) = n /\ b64_char n <> PAD /\ is_b64_char (b64_char n) = true.
Proof.
  intros Hn. unfold b64_char, b64_value, is_b64_char, PAD.
  destruct (N.ltb_spec n 26); [|destruct (N.ltb_spec n 52);
    [|destruct (N.ltb_spec n 62); [|destruct (N.eqb_spec n 62)]]].
  - replace ((65 <=? n + 65) && (n + 65 <=? 90))%N with true
      by (symmetry; apply andb_true_intro; split; apply N.leb_le; lia).
    simpl. repeat split; lia.
  - replace ((65 <=? n + 71) && (n + 71 <=? 90))%N with false
      by (symmetry; apply andb_false_intro2; apply N.leb_gt; lia).
    replace ((97 <=? n + 71) && (n + 71 <=? 122))%N with true
      by (symmetry; apply andb_true_intro; split; apply N.leb_le; lia).
    simpl. repeat split; lia.
  - replace ((65 <=? n - 4) && (n - 4 <=? 90))%N with false
      by (symmetry; apply andb_false_intro1; apply N.leb_gt; lia).
    replace ((97 <=? n - 4) && (n - 4 <=? 122))%N with false
      by (symmetry; apply andb_false_intro1; apply N.leb_gt; lia).
    replace ((48 <=? n - 4) && (n - 4 <=? 57))%N with true
      by (symmetry; apply andb_true_intro; split; apply N.leb_le; lia).
    simpl. repeat split; lia.
  - subst n. repeat split; try reflexivity. discriminate.
  - assert (n = 63%N) by lia. subst n. repeat split; try reflexivity. discriminate.
Qed.

Lemma unbase64_base64 (s : jsstring) : Forall is_byte s -> unbase64 (base64 s) = s.
Proof.
  unfold is_byte.
  induction s as [|a|a b|a b c rest IH] using list_ind3; intros Hs.
  - reflexivity.
  - apply Forall_cons in Hs as [Ha _].
    cbn [base64 unbase64]. rewrite N.eqb_refl.
    assert (H1 : (a / 4 < 64)%N) by (apply N.Div0.div_lt_upper_bound; lia).
    assert (H2 : (a mod 4 * 16 < 64)%N) by (pose proof (N.mod_lt a 4); lia).
    destruct (b64_value_char _ H1) as (-> & _ & _).
    destruct (b64_value_char _ H2) as (-> & _ & _).
    f_equal. rewrite N.div_mul by lia.
    pose proof (N.div_mod a 4). lia.
  - apply Forall_cons in Hs as [Ha Hs]. apply Forall_cons in Hs as [Hb _].
    cbn [base64 unbase64].
    assert (H1 : (a / 4 < 64)%N) by (apply N.Div0.div_lt_upper_bound; lia).
    assert (Hb16 : (b / 16 < 16)%N) by (apply N.Div0.div_lt_upper_bound; lia).
    assert (H2 : (a mod 4 * 16 + b / 16 < 64)%N) by (pose proof (N.mod_lt a 4); lia).
    assert (H3 : (b mod 16 * 4 < 64)%N) by (pose proof (N.mod_lt b 16); lia).
    destruct (b64_value_char _ H1) as (-> & _ & _).
    destruct (b64_value_char _ H2) as (-> & _ & _).
    destruct (b64_value_char _ H3) as (-> & Hp & _).
    apply N.eqb_neq in Hp. rewrite Hp, N.eqb_refl.
    f_equal; [|f_equal].
    + rewrite N.div_add_l by lia. rewrite (N.div_small (b / 16) 16) by lia.
      pose proof (N.div_mod a 4). lia.
    + rewrite (N.add_comm (a mod 4 * 16)), N.Div0.mod_add,
        (N.mod_small (b / 16) 16) by lia.
      rewrite N.div_mul by lia. pose proof (N.div_mod b 16). lia.
  - apply Forall_cons in Hs as [Ha Hs]. apply Forall_cons in Hs as [Hb Hs].
    apply Forall_cons in Hs as [Hc Hs].
    cbn [base64 unbase64].
    assert (H1 : (a / 4 < 64)%N) by (apply N.Div0.div_lt_upper_bound; lia).
    assert (Hb16 : (b / 16 < 16)%N) by (apply N.Div0.div_lt_upper_bound; lia).
    assert (Hc64 : (c / 64 < 4)%N) by (apply N.Div0.div_lt_upper_bound; lia).
    assert (H2 : (a mod 4 * 16 + b / 16 < 64)%N) by (pose proof (N.mod_lt a 4); lia).
    assert (H3 : (b mod 16 * 4 + c / 64 < 64)%N) by (pose proof (N.mod_lt b 16); lia).
    assert (H4 : (c mod 64 < 64)%N) by (apply N.mod_lt; lia).
    destruct (b64_value_char _ H1) as (-> & _ & _).
    destruct (b64_value_char _ H2) as (-> & _ & _).
    destruct (b64_value_char _ H3) as (-> & Hp3 & _).
    destruct (b64_value_char _ H4) as (-> & Hp4 & _).
    apply N.eqb_neq in Hp3, Hp4. rewrite Hp3, Hp4.
    rewrite (IH Hs).
    f_equal; [|f_equal; [|f_equal]].
    + rewrite N.div_add_l by lia. rewrite (N.div_small (b / 16) 16) by lia.
      pose proof (N.div_mod a 4). lia.
    + rewrite (N.add_comm (a mod 4 * 16)), N.Div0.mod_add,
        (N.mod_small (b / 16) 16) by lia.
      rewrite N.div_add_l by lia. rewrite (N.div_small (c / 64) 4) by lia.
      pose proof (N.div_mod b 16). lia.
    + rewrite (N.add_comm (b mod 16 * 4)), N.Div0.mod_add,
        (N.mod_small (c / 64) 4) by lia.
      pose proof (N.div_mod c 64). lia.
Qed.

Lemma base64_length (s : jsstring) : length (base64 s) = 4 * ((length s + 2) / 3).
Proof.
  induction s as [|a|a b|a b c rest IH] using list_ind3; try reflexivity.
  cbn [base64 length]. rewrite IH.
  replace (S (S (S (length rest))) + 2) with ((length rest + 2) + 1 * 3) by lia.
  rewrite Nat.div_add by lia. lia.
Qed.

Lemma base64_alphabet (s : jsstring) :
  Forall is_byte s -> Forall (fun c => is_b64_char c = true \/ c = PAD) (base64 s).
Proof.
  unfold is_byte.
  induction s as [|a|a b|a b c rest IH] using list_ind3; intros Hs.
  - constructor.
  - apply Forall_cons in Hs as [Ha _]. cbn [base64].
    assert (H1 : (a / 4 < 64)%N) by (apply N.Div0.div_lt_upper_bound; lia).
    assert (H2 : (a mod 4 * 16 < 64)%N) by (pose proof (N.mod_lt a 4); lia).
    destruct (b64_value_char _ H1) as (_ & _ & ?).
    destruct (b64_value_char _ H2) as (_ & _ & ?).
    repeat (apply List.Forall_cons; [first [now left | now right]|]). constructor.
  - apply Forall_cons in Hs as [Ha Hs]. apply Forall_cons in Hs as [Hb _].
    cbn [base64].
    assert (H1 : (a / 4 < 64)%N) by (apply N.Div0.div_lt_upper_bound; lia).
    assert (Hb16 : (b / 16 < 16)%N) by (apply N.Div0.div_lt_upper_bound; lia).
    assert (H2 : (a mod 4 * 16 + b / 16 < 64)%N) by (pose proof (N.mod_lt a 4); lia).
    assert (H3 : (b mod 16 * 4 < 64)%N) by (pose proof (N.mod_lt b 16); lia).
    destruct (b64_value_char _ H1) as (_ & _ & ?).
    destruct (b64_value_char _ H2) as (_ & _ & ?).
    destruct (b64_value_char _ H3) as (_ & _ & ?).
    repeat (apply List.Forall_cons; [first [now left | now right]|]). constructor.
  - apply Forall_cons in Hs as [Ha Hs]. apply Forall_cons in Hs as [Hb Hs].
    apply Forall_cons in Hs as [Hc Hs]. cbn [base64].
    assert (H1 : (a / 4 < 64)%N) by (apply N.Div0.div_lt_upper_bound; lia).
    assert (Hb16 : (b / 16 < 16)%N) by (apply N.Div0.div_lt_upper_bound; lia).
    assert (Hc64 : (c / 64 < 4)%N) by (apply N.Div0.div_lt_upper_bound; lia).
    assert (H2 : (a mod 4 * 16 + b / 16 < 64)%N) by (pose proof (N.mod_lt a 4); lia).
    assert (H3 : (b mod 16 * 4 + c / 64 < 64)%N) by (pose proof (N.mod_lt b 16); lia).
    assert (H4 : (c mod 64 < 64)%N) by (apply N.mod_lt; lia).
    destruct (b64_value_char _ H1) as (_ & _ & ?).
    destruct (b64_value_char _ H2) as (_ & _ & ?).
    destruct (b64_value_char _ H3) as (_ & _ & ?).
    destruct (b64_value_char _ H4) as (_ & _ & ?).
    repeat (apply List.Forall_cons; [now left|]). now apply IH.
Qed.

Lemma fromCharCode_bytes (bytes : list N) :
  Forall is_byte bytes -> map fromCharCode bytes = bytes.
Proof.
  unfold is_byte, fromCharCode.
  induction 1 as [|b bytes Hb _ IH]; [reflexivity|].
  cbn [map]. rewrite IH, N.mod_small by lia. reflexivity.
Qed.

Lemma bytes_below_256 (bytes : list N) :
  Forall is_byte bytes -> forallb (fun c => (c <? 256)%N) bytes = true.
Proof.
  unfold is_byte. induction 1 as [|b bytes Hb _ IH]; [reflexivity|].
  cbn [forallb]. rewrite IH. now apply N.ltb_lt in Hb as ->.
Qed.

Lemma encode_bytes (bytes : list N) :
  Forall is_byte bytes -> encode bytes = Some (base64 bytes).
Proof.
  intros H. unfold encode, btoa.
  now rewrite (fromCharCode_bytes bytes H), (bytes_below_256 bytes H).
Qed.

(** X7: on the elements of a [Uint8Array] (each below 256) [encode]
    never fails: no code unit of the binary string is above 255, so
    [btoa] does not throw.  The text it returns has four characters for
    every three bytes, the last group padded, and is made of the letters
    of the base-64 alphabet and the padding sign. *)
Theorem encode_total (bytes : list N) :
  Forall is_byte bytes ->
  exists text : jsstring,
    encode bytes = Some text
    /\ length text = 4 * ((length bytes + 2) / 3)
    /\ Forall (fun c => is_b64_char c = true \/ c = PAD) text.
Proof.
  intros H. exists (base64 bytes).
  split; [now apply encode_bytes|].
  split; [apply base64_length | now apply base64_alphabet].
Qed.

Lemma encode_total_witness :
  Forall is_byte [77; 97; 110; 33]%N
  /\ encode [77; 97; 110; 33]%N = Some (js "TWFuIQ==").
Proof.
  assert (H : Forall is_byte [77; 97; 110; 33]%N)
    by (repeat constructor; reflexivity).
  split; [exact H|].
  destruct (encode_total _ H) as (text & He & _).
  rewrite He. apply f_equal. apply (f_equal (fun o => default [] o)) in He.
  symmetry. exact He.
Defined.

(** X8: [encode] loses nothing: two byte arrays with the same encoding
    are the same array. *)
Theorem encode_injective (b1 b2 : list N) :
  Forall is_byte b1 -> Forall is_byte b2 ->
  encode b1 = encode b2 -> b1 = b2.
Proof.
  intros H1 H2. rewrite (encode_bytes b1 H1), (encode_bytes b2 H2).
  intros H. injection H as H.
  rewrite <- (unbase64_base64 b1 H1), <- (unbase64_base64 b2 H2).
  now rewrite H.
Qed.

Lemma encode_injective_witness :
  Forall is_byte [1; 2]%N /\ Forall is_byte [1; 2]%N /\ [1; 2]%N = [1; 2]%N.
Proof.
  assert (H : Forall is_byte [1; 2]%N) by (repeat constructor; reflexivity).
  split; [exact H|]. split; [exact H|].
  exact (encode_injective _ _ H H eq_refl).
Defined.

Lemma onaudioprocess_int16_range (inputData : list jsnumber) :
  Forall (fun z => (-32768 <= z <= 32767)%Z) (onaudioprocess_int16 inputData).
Proof.
  unfold onaudioprocess_int16. apply Forall_map, Forall_forall.
  intros x _. apply quantize_int16.
Qed.

(** X9: the data of a frame.  For every input buffer (samples out of
    range, infinite or NaN included) the handler builds the data without
    failure; the text has four characters for every three of the
    [2 * n] bytes of the [n] samples; and it determines the stored
    samples: two buffers with the same data have the same 16-bit
    values, each in the signed 16-bit range. *)
Theorem pcmBlob_data_faithful (l1 l2 : list jsnumber) :
  (exists text : jsstring,
      pcmBlob_data l1 = Some text
      /\ length text = 4 * ((2 * length l1 + 2) / 3))
  /\ Forall (fun z => (-32768 <= z <= 32767)%Z) (onaudioprocess_int16 l1)
  /\ (pcmBlob_data l1 = pcmBlob_data l2 ->
      onaudioprocess_int16 l1 = onaudioprocess_int16 l2).
Proof.
  unfold pcmBlob_data.
  pose proof (Uint8Array_of_buffer_bytes (onaudioprocess_int16 l1)) as H1.
  pose proof (Uint8Array_of_buffer_bytes (onaudioprocess_int16 l2)) as H2.
  split; [|split; [apply onaudioprocess_int16_range|]].
  - exists (base64 (Uint8Array_of_buffer (onaudioprocess_int16 l1))).
    split; [now apply encode_bytes|].
    rewrite base64_length, Uint8Array_of_buffer_length.
    unfold onaudioprocess_int16. now rewrite length_map.
  - rewrite (encode_bytes _ H1), (encode_bytes _ H2). intros H. injection H as H.
    apply Uint8Array_of_buffer_inj; try apply onaudioprocess_int16_range.
    rewrite <- (unbase64_base64 _ H1), <- (unbase64_base64 _ H2). now rewrite H.
Qed.

Lemma pcmBlob_data_faithful_witness :
  pcmBlob_data [Finite (1 # 2); NaN] = pcmBlob_data [Finite (1 # 2); Finite 0]
  /\ onaudioprocess_int16 [Finite (1 # 2); NaN]
     = onaudioprocess_int16 [Finite (1 # 2); Finite 0].
Proof.
  assert (H : pcmBlob_data [Finite (1 # 2); NaN]
              = pcmBlob_data [Finite (1 # 2); Finite 0]) by reflexivity.
  split; [exact H|].
  exact (proj2 (proj2 (pcmBlob_data_faithful _ _)) H).
Defined.

Example pcmBlob_data_half_scale :
  pcmBlob_data [Finite (1 # 2); Finite (-1)] = Some (js "AEAAgA==").
Proof. reflexivity. Qed.

(** ** More on the history *)

Lemma last_removelast {A : Type} (l : list A) (x : A) :
  last l = Some x -> l = removelast l ++ [x].
Proof.
  intros H. destruct l as [|a l] using rev_ind; [discriminate|].
  rewrite last_snoc in H. injection H as ->. now rewrite removelast_last.
Qed.

Section HistorySteps.

Context {Surface : Type}.
Variable toDataURL : Surface -> jsstring.
Variable clearRect : Surface -> Surface.
Variable drawImage : jsstring -> Surface -> Surface.

Local Abbreviation undo := (undo toDataURL).
Local Abbreviation redo := (redo toDataURL).
Local Abbreviation undo_loaded := (undo_loaded toDataURL clearRect drawImage).
Local Abbreviation redo_loaded := (redo_loaded toDataURL clearRect drawImage).
Local Abbreviation mutations := (mutations toDataURL).

Lemma undo_acts (st : Home Surface) (p : jsstring) (c : Surface) :
  last (undoStack st) = Some p -> canvasRef st = Some c ->
  undo st = (set_stacks (removelast (undoStack st)) (redoStack st ++ [toDataURL c]) st,
             Some p).
Proof. intros Hl Hc. unfold undo, loadState. now rewrite Hl, Hc. Qed.

Lemma redo_acts (st : Home Surface) (n : jsstring) (c : Surface) :
  last (redoStack st) = Some n -> canvasRef st = Some c ->
  redo st = (set_stacks (undoStack st ++ [toDataURL c]) (removelast (redoStack st)) st,
             Some n).
Proof. intros Hl Hc. unfold redo, loadState. now rewrite Hl, Hc. Qed.

Lemma undo_idle (st : Home Surface) :
  last (undoStack st) = None \/ canvasRef st = None -> undo st = (st, None).
Proof.
  unfold undo. intros [-> | ->]; [reflexivity|]. now destruct (last (undoStack st)).
Qed.

Lemma redo_idle (st : Home Surface) :
  last (redoStack st) = None \/ canvasRef st = None -> redo st = (st, None).
Proof.
  unfold redo. intros [-> | ->]; [reflexivity|]. now destruct (last (redoStack st)).
Qed.

Lemma undo_cases (st : Home Surface) :
  undo st = (st, None)
  \/ exists p c, last (undoStack st) = Some p /\ canvasRef st = Some c
       /\ undo st = (set_stacks (removelast (undoStack st))
                       (redoStack st ++ [toDataURL c]) st, Some p).
Proof.
  destruct (last (undoStack st)) as [p|] eqn:Hl;
    [destruct (canvasRef st) as [c|] eqn:Hc|].
  - right. exists p, c. auto using undo_acts.
  - left. apply undo_idle. now right.
  - left. apply undo_idle. now left.
Qed.

Lemma redo_cases (st : Home Surface) :
  redo st = (st, None)
  \/ exists n c, last (redoStack st) = Some n /\ canvasRef st = Some c
       /\ redo st = (set_stacks (undoStack st ++ [toDataURL c])
                       (removelast (redoStack st)) st, Some n).
Proof.
  destruct (last (redoStack st)) as [n|] eqn:Hl;
    [destruct (canvasRef st) as [c|] eqn:Hc|].
  - right. exists n, c. auto using redo_acts.
  - left. apply redo_idle. now right.
  - left. apply redo_idle. now left.
Qed.

(** X10: an undo or a redo moves one snapshot and loses none: the two
    stacks together keep their size; when an undo acts, the image it
    loads is the top of [undoStack], which is popped, and the snapshot
    of the canvas is pushed on [redoStack]; and symmetrically for a
    redo. *)
Theorem undo_redo_move_one_snapshot (st : Home Surface) :
  length (undoStack (fst (undo st))) + length (redoStack (fst (undo st)))
  = length (undoStack st) + length (redoStack st)
  /\ length (undoStack (fst (redo st))) + length (redoStack (fst (redo st)))
     = length (undoStack st) + length (redoStack st)
  /\ (forall img, snd (undo st) = Some img ->
        undoStack st = undoStack (fst (undo st)) ++ [img]
        /\ exists canvas, canvasRef st = Some canvas
             /\ redoStack (fst (undo st)) = redoStack st ++ [toDataURL canvas])
  /\ (forall img, snd (redo st) = Some img ->
        redoStack st = redoStack (fst (redo st)) ++ [img]
        /\ exists canvas, canvasRef st = Some canvas
             /\ undoStack (fst (redo st)) = undoStack st ++ [toDataURL canvas]).
Proof.
  destruct (undo_cases st) as [Hu | (p & c & Hp & Hc & Hu)];
    destruct (redo_cases st) as [Hr | (n & c' & Hn & Hc' & Hr)];
    rewrite Hu, Hr; cbn [fst snd undoStack redoStack set_stacks];
    try (apply last_removelast in Hp as Hp';
         pose proof (f_equal length Hp') as Lp; rewrite length_app in Lp; cbn in Lp);
    try (apply last_removelast in Hn as Hn';
         pose proof (f_equal length Hn') as Ln; rewrite length_app in Ln; cbn in Ln);
    rewrite ?length_app; cbn [length].
  - split; [reflexivity|]. split; [reflexivity|].
    split; intros img H; discriminate H.
  - split; [reflexivity|]. split; [lia|].
    split; [intros img H; discriminate H|].
    intros img H. injection H as <-. split; [exact Hn'|]. eauto.
  - split; [lia|]. split; [reflexivity|]. split; [|intros img H; discriminate H].
    intros img H. injection H as <-. split; [exact Hp'|]. eauto.
  - split; [lia|]. split; [lia|].
    split; intros img H; injection H as <-; split; eauto.
Qed.

(** X11: [undo] changes nothing exactly when [undoStack] is empty or no
    canvas is mounted, and [redo] exactly when [redoStack] is empty or
    no canvas is mounted: with a canvas, each button is disabled
    (lines 963, 966) exactly when its handler would do nothing. *)
Theorem undo_redo_idle_iff (st : Home Surface) :
  (undo st = (st, None) <-> undoStack st = [] \/ canvasRef st = None)
  /\ (redo st = (st, None) <-> redoStack st = [] \/ canvasRef st = None).
Proof.
  split; split.
  - intros H. destruct (undo_cases st) as [_ | (p & c & Hp & Hc & Hu)].
    + destruct (canvasRef st) eqn:Hc; [|now right]. left.
      destruct (undoStack st) as [|x l] eqn:E using rev_ind; [reflexivity|].
      exfalso. unfold undo, loadState in H.
      rewrite E, last_snoc, Hc in H. discriminate H.
    + rewrite Hu in H. discriminate H.
  - intros [H | H]; apply undo_idle; [left; now rewrite H | now right].
  - intros H. destruct (redo_cases st) as [_ | (p & c & Hp & Hc & Hu)].
    + destruct (canvasRef st) eqn:Hc; [|now right]. left.
      destruct (redoStack st) as [|x l] eqn:E using rev_ind; [reflexivity|].
      exfalso. unfold redo, loadState in H.
      rewrite E, last_snoc, Hc in H. discriminate H.
    + rewrite Hu in H. discriminate H.
  - intros [H | H]; apply redo_idle; [left; now rewrite H | now right].
Qed.

(** A decoded snapshot, drawn on the cleared canvas, gives back the
    surface it was taken from. *)
Hypothesis snapshot_faithful :
  forall s s' : Surface, drawImage (toDataURL s) (clearRect s') = s.

(** X12: single steps undo each other.  When the top of [undoStack] is
    the snapshot of a surface, an undo followed by a redo (each with
    its image loaded) gives back the state; when the top of [redoStack]
    is one, so does a redo followed by an undo. *)
Theorem undo_redo_inverse (st : Home Surface) (canvas s : Surface) (rest : list jsstring) :
  canvasRef st = Some canvas ->
  (undoStack st = rest ++ [toDataURL s] -> redo_loaded (undo_loaded st) = st)
  /\ (redoStack st = rest ++ [toDataURL s] -> undo_loaded (redo_loaded st) = st).
Proof.
  intros Hc. destruct st as [cv g l m e k U R a]. cbn in Hc. subst cv.
  split; cbn; intros ->.
  - unfold undo_loaded, redo_loaded, settle, undo, redo, loadState, loadState_onload.
    cbn. rewrite last_snoc, removelast_last. cbn.
    rewrite last_snoc, removelast_last. cbn.
    now rewrite !snapshot_faithful.
  - unfold undo_loaded, redo_loaded, settle, undo, redo, loadState, loadState_onload.
    cbn. rewrite last_snoc, removelast_last. cbn.
    rewrite last_snoc, removelast_last. cbn.
    now rewrite !snapshot_faithful.
Qed.

(** X13: snapshots are taken before the drawing and are never dropped.
    After a sequence of mutating operations on a mounted canvas,
    [undoStack] is the former stack followed by the snapshots of the
    surface before each operation, in order: it grows by one entry per
    operation, without bound; the canvas holds the result of the
    operations, and [redoStack] is empty if there was an operation. *)
Theorem mutations_push_pre_images (ops : list (Surface -> Surface))
        (st : Home Surface) (canvas : Surface) :
  canvasRef st = Some canvas ->
  undoStack (mutations ops st)
  = undoStack st ++ map toDataURL (surfaces_before ops canvas)
  /\ length (undoStack (mutations ops st)) = length (undoStack st) + length ops
  /\ canvasRef (mutations ops st) = Some (surface_after ops canvas)
  /\ (ops <> [] -> redoStack (mutations ops st) = []).
Proof.
  intros Hc.
  destruct ops as [|f ops].
  - cbn. rewrite app_nil_r.
    split; [reflexivity|]. split; [lia|]. split; [exact Hc|].
    intros H. now destruct H.
  - assert (H : mutations (f :: ops) st
                = timeline toDataURL st (undoStack st)
                    ([canvas] ++ surfaces_before ops (f canvas))
                    (surface_after ops (f canvas)) []).
    { unfold mutations. cbn [fold_left].
      rewrite (first_mutation toDataURL st canvas f Hc).
      apply timeline_mutations. }
    rewrite H. unfold timeline.
    cbn [undoStack redoStack canvasRef set_canvasRef set_stacks app].
    split; [reflexivity|].
    split; [|split; reflexivity].
    rewrite length_app, length_map. cbn [length].
    rewrite (length_surfaces_before ops). lia.
Qed.

End HistorySteps.

Lemma undo_redo_move_one_snapshot_witness :
  snd (undo text_toDataURL (mutation text_toDataURL (fun _ => js "stroke") fresh))
  = Some (js "white")
  /\ undoStack (mutation text_toDataURL (fun _ => js "stroke") fresh)
     = undoStack (fst (undo text_toDataURL
                         (mutation text_toDataURL (fun _ => js "stroke") fresh)))
       ++ [js "white"].
Proof.
  assert (H : snd (undo text_toDataURL
                     (mutation text_toDataURL (fun _ => js "stroke") fresh))
              = Some (js "white")) by reflexivity.
  split; [exact H|].
  exact (proj1 (proj1 (proj2 (proj2 (undo_redo_move_one_snapshot text_toDataURL _))) _ H)).
Defined.

Lemma undo_redo_inverse_witness :
  (forall s s' : jsstring, text_drawImage (text_toDataURL s) (text_clearRect s') = s)
  /\ canvasRef stroke_undone = Some (js "white")
  /\ redoStack stroke_undone = [] ++ [text_toDataURL (js "stroke")]
  /\ undo_loaded text_toDataURL text_clearRect text_drawImage
       (redo_loaded text_toDataURL text_clearRect text_drawImage stroke_undone)
     = stroke_undone.
Proof.
  assert (H : forall s s' : jsstring,
             text_drawImage (text_toDataURL s) (text_clearRect s') = s) by reflexivity.
  assert (Hc : canvasRef stroke_undone = Some (js "white")) by reflexivity.
  assert (Hr : redoStack stroke_undone = [] ++ [text_toDataURL (js "stroke")])
    by reflexivity.
  split; [exact H|]. split; [exact Hc|]. split; [exact Hr|].
  exact (proj2 (undo_redo_inverse text_toDataURL text_clearRect text_drawImage H
                  stroke_undone (js "white") (js "stroke") [] Hc) Hr).
Defined.

Lemma mutations_push_pre_images_witness :
  canvasRef fresh = Some (js "white")
  /\ undoStack (mutations text_toDataURL
                  [fun _ : jsstring => js "stroke"; fun s => s ++ js "+dot"] fresh)
     = [js "white"; js "stroke"].
Proof.
  assert (Hc : canvasRef fresh = Some (js "white")) by reflexivity.
  split; [exact Hc|].
  exact (proj1 (mutations_push_pre_images text_toDataURL
                  [fun _ : jsstring => js "stroke"; fun s => s ++ js "+dot"]
                  fresh (js "white") Hc)).
Defined.

(** ** Drawing, clearing and loading an image *)

Section EditorProperties.

Context {Surface Point : Type}.
Variable toDataURL : Surface -> jsstring.
Variable clearRect : Surface -> Surface.
Variable drawImage : jsstring -> Surface -> Surface.
Variable fillWhite : Surface -> Surface.
Variable drawImage_scaled : jsstring -> Surface -> Surface.
Variable beginPath_moveTo : Point -> Surface -> Surface.
Variable lineTo_stroke : jsstring -> Point -> Surface -> Surface.

Local Abbreviation undo_loaded := (undo_loaded toDataURL clearRect drawImage).
Local Abbreviation generatedImage_onload :=
  (generatedImage_onload toDataURL fillWhite drawImage_scaled).
Local Abbreviation clearCanvas := (clearCanvas toDataURL fillWhite).
Local Abbreviation startDrawing := (startDrawing toDataURL beginPath_moveTo).
Local Abbreviation draw := (draw lineTo_stroke).
Local Abbreviation gesture := (gesture toDataURL beginPath_moveTo lineTo_stroke).
Local Abbreviation gesture_surface := (gesture_surface beginPath_moveTo lineTo_stroke).

Hypothesis snapshot_faithful :
  forall s s' : Surface, drawImage (toDataURL s) (clearRect s') = s.

(** Undo right after a snapshot of surface [s] was pushed on the stack
    [U], with surface [c] on the canvas. *)
Lemma undo_loaded_after_push (h : Home Surface) (U : list jsstring) (s c : Surface) :
  canvasRef h = Some c -> undoStack h = U ++ [toDataURL s] ->
  canvasRef (undo_loaded h) = Some s /\ undoStack (undo_loaded h) = U
  /\ generatedImage (undo_loaded h) = generatedImage h.
Proof.
  intros Hc Hu. destruct h as [cv g l m e k Us R a]. cbn in Hc, Hu. subst cv Us.
  unfold undo_loaded, settle, undo, loadState, loadState_onload. cbn.
  rewrite last_snoc, removelast_last. cbn. now rewrite snapshot_faithful.
Qed.

(** X14: when a generated or uploaded image has loaded, the canvas is
    painted first and the snapshot taken after: the entry pushed on
    [undoStack] is the picture of the canvas with the image.  So the
    first undo after the load leaves the canvas as it is, and the
    surface that was on the canvas before the image is not in the
    history. *)
Theorem image_load_snapshots_after (img : jsstring) (ed : Editor Surface) (canvas : Surface) :
  canvasRef (home ed) = Some canvas ->
  let shown := drawImage_scaled img (fillWhite canvas) in
  let ed' := generatedImage_onload img ed in
  canvasRef (home ed') = Some shown
  /\ undoStack (home ed') = undoStack (home ed) ++ [toDataURL shown]
  /\ redoStack (home ed') = []
  /\ backgroundImageRef ed' = Some img
  /\ canvasRef (undo_loaded (home ed')) = Some shown
  /\ undoStack (undo_loaded (home ed')) = undoStack (home ed).
Proof.
  intros Hc. cbv zeta.
  assert (H : home (generatedImage_onload img ed)
              = set_stacks
                  (undoStack (home ed)
                   ++ [toDataURL (drawImage_scaled img (fillWhite canvas))]) []
                  (set_canvasRef (Some (drawImage_scaled img (fillWhite canvas))) (home ed))).
  { unfold generatedImage_onload, drawImageToCanvas, saveState. cbn. now rewrite Hc. }
  rewrite H. cbn [canvasRef undoStack redoStack set_stacks set_canvasRef].
  split; [reflexivity|]. split; [reflexivity|]. split; [reflexivity|].
  split; [unfold generatedImage_onload, drawImageToCanvas; cbn; now rewrite Hc|].
  rewrite <- H.
  destruct (undo_loaded_after_push (home (generatedImage_onload img ed))
              (undoStack (home ed)) (drawImage_scaled img (fillWhite canvas))
              (drawImage_scaled img (fillWhite canvas))) as (H1 & H2 & _);
    try (rewrite H; reflexivity).
  split; assumption.
Qed.

(** X15: clearing is one undo step.  On a mounted canvas [clearCanvas]
    fills the canvas with white, resets [generatedImage] and the
    background image, and pushes the snapshot of the canvas before the
    fill; the undo that follows brings those pixels back, while
    [generatedImage] stays reset. *)
Theorem clearCanvas_then_undo (ed : Editor Surface) (canvas : Surface) :
  canvasRef (home ed) = Some canvas ->
  let ed' := clearCanvas ed in
  canvasRef (home ed') = Some (fillWhite canvas)
  /\ generatedImage (home ed') = None
  /\ backgroundImageRef ed' = None
  /\ undoStack (home ed') = undoStack (home ed) ++ [toDataURL canvas]
  /\ redoStack (home ed') = []
  /\ canvasRef (undo_loaded (home ed')) = Some canvas
  /\ generatedImage (undo_loaded (home ed')) = None.
Proof.
  intros Hc. cbv zeta.
  assert (H : clearCanvas ed
              = set_backgroundImageRef None
                  (set_home
                     (set_generatedImage None
                        (set_canvasRef (Some (fillWhite canvas))
                           (set_stacks (undoStack (home ed) ++ [toDataURL canvas]) []
                              (home ed))))
                     ed)).
  { unfold clearCanvas, saveState. rewrite Hc. cbn. now rewrite Hc. }
  rewrite H. cbn [home set_home set_backgroundImageRef backgroundImageRef].
  destruct (undo_loaded_after_push
              (set_generatedImage None
                 (set_canvasRef (Some (fillWhite canvas))
                    (set_stacks (undoStack (home ed) ++ [toDataURL canvas]) [] (home ed))))
              (undoStack (home ed)) canvas (fillWhite canvas))
    as (H1 & _ & H3); try reflexivity.
  cbn in H3. cbn. auto 10.
Qed.

Lemma draw_fold_drawing (moves : list Point) : forall ed : Editor Surface, forall c : Surface,
  isDrawing ed = true -> canvasRef (home ed) = Some c ->
  fold_left (fun e q => draw q e) moves ed
  = set_home
      (set_canvasRef
         (Some (fold_left (fun s q => lineTo_stroke (penColor ed) q s) moves c))
         (home ed)) ed.
Proof.
  induction moves as [|q moves IH]; intros ed c Hd Hc.
  - cbn. destruct ed as [h b d p]. destruct h. cbn in *. now subst.
  - cbn [fold_left].
    assert (Hq : draw q ed
                 = set_home (set_canvasRef (Some (lineTo_stroke (penColor ed) q c)) (home ed)) ed).
    { unfold draw. now rewrite Hd, Hc. }
    rewrite Hq. rewrite (IH _ (lineTo_stroke (penColor ed) q c)); try reflexivity.
    exact Hd.
Qed.

(** X16: a stroke is one undo step.  On a mounted canvas a gesture
    (button down, any number of moves, button up) pushes exactly one
    snapshot, that of the canvas before the gesture, however many moves
    it has; it leaves [isDrawing] unset, so that moves after it draw
    nothing; and the undo that follows brings the canvas back to what
    it was before the gesture. *)
Theorem gesture_is_one_step (p : Point) (moves : list Point)
        (ed : Editor Surface) (canvas : Surface) :
  canvasRef (home ed) = Some canvas ->
  let ed' := gesture p moves ed in
  canvasRef (home ed') = Some (gesture_surface (penColor ed) p moves canvas)
  /\ undoStack (home ed') = undoStack (home ed) ++ [toDataURL canvas]
  /\ redoStack (home ed') = []
  /\ isDrawing ed' = false
  /\ (forall q, draw q ed' = ed')
  /\ canvasRef (undo_loaded (home ed')) = Some canvas.
Proof.
  intros Hc. cbv zeta.
  assert (Hs : startDrawing p ed
               = set_isDrawing true
                   (set_home
                      (set_canvasRef (Some (beginPath_moveTo p canvas))
                         (set_stacks (undoStack (home ed) ++ [toDataURL canvas]) []
                            (home ed)))
                      ed)).
  { unfold startDrawing, saveState. rewrite Hc. cbn. now rewrite Hc. }
  assert (H : gesture p moves ed
              = set_isDrawing false
                  (set_home
                     (set_canvasRef
                        (Some (gesture_surface (penColor ed) p moves canvas))
                        (set_stacks (undoStack (home ed) ++ [toDataURL canvas]) []
                           (home ed)))
                     ed)).
  { unfold gesture, stopDrawing. rewrite Hs.
    rewrite (draw_fold_drawing moves _ (beginPath_moveTo p canvas)); reflexivity. }
  rewrite H. cbn [home set_home set_isDrawing isDrawing].
  destruct (undo_loaded_after_push
              (set_canvasRef (Some (gesture_surface (penColor ed) p moves canvas))
                 (set_stacks (undoStack (home ed) ++ [toDataURL canvas]) [] (home ed)))
              (undoStack (home ed)) canvas
              (gesture_surface (penColor ed) p moves canvas))
    as (H1 & _ & _); try reflexivity.
  cbn. auto 10.
Qed.

(** Without a gesture under way, a move draws nothing. *)
Lemma draw_idle (q : Point) (ed : Editor Surface) : isDrawing ed = false -> draw q ed = ed.
Proof. unfold draw. now intros ->. Qed.

End EditorProperties.

Lemma image_load_snapshots_after_witness :
  (forall s s' : jsstring, text_drawImage (text_toDataURL s) (text_clearRect s') = s)
  /\ canvasRef (home studio) = Some (js "white")
  /\ canvasRef (home (generatedImage_onload text_toDataURL text_fillWhite
                        text_drawImage_scaled (js "cat") studio))
     = Some (js "white+cat")
  /\ canvasRef (undo_loaded text_toDataURL text_clearRect text_drawImage
                  (home (generatedImage_onload text_toDataURL text_fillWhite
                           text_drawImage_scaled (js "cat") studio)))
     = Some (js "white+cat").
Proof.
  assert (H : forall s s' : jsstring,
             text_drawImage (text_toDataURL s) (text_clearRect s') = s) by reflexivity.
  assert (Hc : canvasRef (home studio) = Some (js "white")) by reflexivity.
  destruct (image_load_snapshots_after text_toDataURL text_clearRect text_drawImage
              text_fillWhite text_drawImage_scaled H (js "cat") studio (js "white") Hc)
    as (H1 & _ & _ & _ & H5 & _).
  split; [exact H|]. split; [exact Hc|]. split; [exact H1 | exact H5].
Defined.

Lemma clearCanvas_then_undo_witness :
  (forall s s' : jsstring, text_drawImage (text_toDataURL s) (text_clearRect s') = s)
  /\ canvasRef (home studio) = Some (js "white")
  /\ canvasRef (undo_loaded text_toDataURL text_clearRect text_drawImage
                  (home (clearCanvas text_toDataURL text_fillWhite studio)))
     = Some (js "white").
Proof.
  assert (H : forall s s' : jsstring,
             text_drawImage (text_toDataURL s) (text_clearRect s') = s) by reflexivity.
  assert (Hc : canvasRef (home studio) = Some (js "white")) by reflexivity.
  destruct (clearCanvas_then_undo text_toDataURL text_clearRect text_drawImage
              text_fillWhite H studio (js "white") Hc)
    as (_ & _ & _ & _ & _ & H6 & _).
  split; [exact H|]. split; [exact Hc | exact H6].
Defined.

Lemma gesture_is_one_step_witness :
  (forall s s' : jsstring, text_drawImage (text_toDataURL s) (text_clearRect s') = s)
  /\ canvasRef (home studio) = Some (js "white")
  /\ canvasRef (home (gesture text_toDataURL text_moveTo text_lineTo 0 [1; 2] studio))
     = Some (js "white-#000000-#000000")
  /\ undoStack (home (gesture text_toDataURL text_moveTo text_lineTo 0 [1; 2] studio))
     = [js "white"]
  /\ canvasRef (undo_loaded text_toDataURL text_clearRect text_drawImage
                  (home (gesture text_toDataURL text_moveTo text_lineTo 0 [1; 2] studio)))
     = Some (js "white").
Proof.
  assert (H : forall s s' : jsstring,
             text_drawImage (text_toDataURL s) (text_clearRect s') = s) by reflexivity.
  assert (Hc : canvasRef (home studio) = Some (js "white")) by reflexivity.
  destruct (gesture_is_one_step text_toDataURL text_clearRect text_drawImage
              text_moveTo text_lineTo H 0 [1; 2] studio (js "white") Hc)
    as (H1 & H2 & _ & _ & _ & H6).
  split; [exact H|]. split; [exact Hc|]. split; [exact H1|].
  split; [exact H2 | exact H6].
Defined.

(** ** The key screen, the outcome of a submission and the modal *)

Lemma parseError_key_message : parseError key_message = JStr key_message.
Proof. vm_compute. reflexivity. Qed.

Lemma handleSubmit_key_error_display {Surface : Type} (out : GenOutcome)
      (st : Home Surface) (c : Surface) :
  key_error out = true -> canvasRef st = Some c ->
  showErrorModal (handleSubmit out st) = true
  /\ errorMessage (handleSubmit out st) = key_message.
Proof.
  intros Hk Hc. rewrite (handleSubmit_mounted out st c Hc).
  destruct out as [[m|]|parts]; try discriminate Hk.
  change (includes entity_not_found m = true) in Hk.
  unfold handleSubmit_resume, or_else.
  destruct (nonempty m) eqn:Hm.
  - rewrite Hk. split; reflexivity.
  - destruct m; [|discriminate Hm]. discriminate Hk.
Qed.

(** X17: what survives the key screen.  When a submission on a mounted
    canvas fails with the key error, the key screen is rendered and
    shows no modal; once a key has been selected and the main screen is
    rendered again, the canvas is a new, blank one, [undoStack] and
    [redoStack] are what they were before the submission, and the modal
    shows the message of the key error. *)
Theorem key_screen_round_trip {Surface : Type} (blank : Surface) (out : GenOutcome)
        (st : Home Surface) (canvas : Surface) :
  key_error out = true -> canvasRef st = Some canvas ->
  let locked := render_commit blank (handleSubmit out st) in
  let back := render_commit blank (handleSelectKey true locked) in
  canvasRef locked = None
  /\ modal_text locked = None
  /\ canvasRef back = Some blank
  /\ undoStack back = undoStack st
  /\ redoStack back = redoStack st
  /\ hasKey back = Some true
  /\ modal_text back = Some (JStr key_message).
Proof.
  intros Hk Hc. cbv zeta.
  assert (Hf : failing out = true) by (destruct out as [[m|]|]; simpl in *; congruence).
  destruct (handleSubmit_failing_cells out st Hf) as (H1 & H2 & H3 & _ & H5).
  destruct (handleSubmit_key_error_display out st canvas Hk Hc) as (H6 & H7).
  unfold mounted in H5. rewrite Hk, Hc in H5. cbn in H5.
  destruct (handleSubmit out st) as [cv g l m e k U R a].
  cbn [canvasRef undoStack redoStack hasKey showErrorModal errorMessage]
    in H1, H2, H3, H5, H6, H7.
  subst.
  cbn -[parseError key_message]. rewrite parseError_key_message. auto 10.
Qed.

Lemma key_screen_round_trip_witness :
  key_error (Thrown (Some api_error)) = true
  /\ canvasRef stroke_undone = Some (js "white")
  /\ canvasRef key_screen = None
  /\ redoStack (render_commit [] (handleSelectKey true key_screen)) = [js "stroke"]
  /\ canvasRef (render_commit [] (handleSelectKey true key_screen)) = Some [].
Proof.
  assert (Hk : key_error (Thrown (Some api_error)) = true) by reflexivity.
  assert (Hc : canvasRef stroke_undone = Some (js "white")) by reflexivity.
  destruct (key_screen_round_trip [] (Thrown (Some api_error)) stroke_undone
              (js "white") Hk Hc) as (H1 & _ & H3 & _ & H5 & _).
  split; [exact Hk|]. split; [exact Hc|]. split; [exact H1|].
  split; [exact H5 | exact H3].
Defined.

(** X18: how a submission ends.  On a mounted canvas the loading flag is
    off after every outcome.  After a response with an image payload,
    [generatedImage] holds the PNG data URL of the payload, the effect
    on that cell, when React runs it, starts the load of that URL, and
    the canvas, the two stacks, the key, the error message, the modal
    flag and the alerts are what they were. *)
Theorem handleSubmit_settles {Surface : Type} (out : GenOutcome)
        (st : Home Surface) (canvas : Surface) :
  canvasRef st = Some canvas ->
  isLoading (handleSubmit out st) = false
  /\ (forall parts data,
        out = Responded parts -> imageData_of parts = Some data -> nonempty data = true ->
        let st' := handleSubmit out st in
        generatedImage st' = Some (png_prefix ++ data)
        /\ (forall b d p, generatedImage_effect
                            {| home := st'; backgroundImageRef := b;
                               isDrawing := d; penColor := p |}
                          = Some (png_prefix ++ data))
        /\ canvasRef st' = canvasRef st /\ undoStack st' = undoStack st
        /\ redoStack st' = redoStack st /\ hasKey st' = hasKey st
        /\ errorMessage st' = errorMessage st
        /\ showErrorModal st' = showErrorModal st
        /\ alerts st' = alerts st).
Proof.
  intros Hc. rewrite (handleSubmit_mounted out st canvas Hc).
  split; [reflexivity|].
  intros parts data -> Hi Hd. cbv zeta.
  unfold handleSubmit_resume, generatedImage_effect. rewrite Hi, Hd. cbn.
  rewrite Hc. auto 10.
Qed.

Lemma handleSubmit_settles_witness :
  canvasRef fresh = Some (js "white")
  /\ generatedImage
       (handleSubmit
          (Responded (Some [{| inlineData := None |};
                            {| inlineData := Some (Some (js "iVBOR")) |}])) fresh)
     = Some (js "data:image/png;base64,iVBOR").
Proof.
  assert (Hc : canvasRef fresh = Some (js "white")) by reflexivity.
  split; [exact Hc|].
  exact (proj1 (proj2 (handleSubmit_settles _ fresh (js "white") Hc)
                  (Some [{| inlineData := None |};
                         {| inlineData := Some (Some (js "iVBOR")) |}])
                  (js "iVBOR") eq_refl eq_refl eq_refl)).
Defined.

(** ** The name of the exported file *)

(** X20: the name of the exported file.  Whatever the text of the date,
    the timestamp in the name has at most 19 characters, none of them a
    colon or a period; up to there, every colon and period of the date
    is replaced by a hyphen and every other character is kept in its
    place; and for a date text of 19 characters or more the file name
    has 38 characters. *)
Theorem export_filename_safe (iso : list N) :
  length (export_timestamp iso) = Nat.min 19 (length iso)
  /\ Forall (fun c => c <> 58%N /\ c <> 46%N) (export_timestamp iso)
  /\ (forall i c, i < 19 -> iso !! i = Some c ->
        export_timestamp iso !! i
        = Some (if ((c =? 58) || (c =? 46))%N then 45%N else c))
  /\ (19 <= length iso -> length (export_filename iso) = 38).
Proof.
  assert (Hlen : length (export_timestamp iso) = Nat.min 19 (length iso)).
  { unfold export_timestamp, replace_colon_period. now rewrite length_take, length_map. }
  split; [exact Hlen|]. split; [|split].
  - unfold export_timestamp. apply Forall_take.
    unfold replace_colon_period. apply Forall_map, Forall_forall. intros c _.
    destruct (N.eqb_spec c 58); [cbn; split; discriminate|].
    destruct (N.eqb_spec c 46); cbn; [split; discriminate | split; assumption].
  - intros i c Hi Hc. unfold export_timestamp, jsstring in *.
    rewrite lookup_take_lt by exact Hi.
    unfold replace_colon_period. now rewrite list_lookup_fmap, Hc.
  - intros H. unfold export_filename. rewrite !length_app, Hlen.
    change (length (js "gemini-drawing-")) with 15.
    change (length (js ".png")) with 4. lia.
Qed.

Lemma export_filename_safe_witness :
  19 <= length (js "2024-05-06T07:08:09.123Z")
  /\ export_filename (js "2024-05-06T07:08:09.123Z")
     = js "gemini-drawing-2024-05-06T07-08-09.png"
  /\ length (export_filename (js "2024-05-06T07:08:09.123Z")) = 38.
Proof.
  assert (H : 19 <= length (js "2024-05-06T07:08:09.123Z")) by (simpl; lia).
  split; [exact H|]. split; [reflexivity|].
  exact (proj2 (proj2 (proj2 (export_filename_safe _))) H).
Defined.

(** ** Without a canvas *)

Section Unmounted.

Context {Surface Point : Type}.
Variable toDataURL : Surface -> jsstring.
Variable fillWhite : Surface -> Surface.
Variable drawImage_scaled : jsstring -> Surface -> Surface.
Variable beginPath_moveTo : Point -> Surface -> Surface.
Variable lineTo_stroke : jsstring -> Point -> Surface -> Surface.

(** X21: while no canvas is mounted (the key screen is shown) every
    canvas handler returns at once: the snapshot, undo, redo, the
    submission (no request is made, the loading flag is not set), the
    clearing, the start of a stroke and a move change nothing at all;
    the load of an image records the image as background and changes
    nothing else. *)
Theorem unmounted_handlers_idle (ed : Editor Surface) (out : GenOutcome)
        (p : Point) (img : jsstring) :
  canvasRef (home ed) = None ->
  saveState toDataURL (home ed) = home ed
  /\ undo toDataURL (home ed) = (home ed, None)
  /\ redo toDataURL (home ed) = (home ed, None)
  /\ handleSubmit out (home ed) = home ed
  /\ handleSubmit_begin (home ed) = None
  /\ clearCanvas toDataURL fillWhite ed = ed
  /\ startDrawing toDataURL beginPath_moveTo p ed = ed
  /\ draw lineTo_stroke p ed = ed
  /\ generatedImage_effect ed = None
  /\ generatedImage_onload toDataURL fillWhite drawImage_scaled img ed
     = set_backgroundImageRef (Some img) ed.
Proof.
  intros Hc.
  assert (Hs : saveState toDataURL (home ed) = home ed)
    by now apply saveState_unmounted.
  split; [exact Hs|].
  split; [now apply undo_unmounted|]. split; [now apply redo_unmounted|].
  split; [now apply handleSubmit_unmounted|].
  split; [unfold handleSubmit_begin; now rewrite Hc|].
  destruct ed as [h b d c]. cbn [home] in *.
  split; [unfold clearCanvas; cbn; now rewrite Hs, Hc|].
  split; [unfold startDrawing; cbn; now rewrite Hs, Hc|].
  split; [unfold draw; cbn; rewrite Hc; now destruct d|].
  split; [unfold generatedImage_effect; cbn; rewrite Hc; now destruct (generatedImage h)|].
  unfold generatedImage_onload, drawImageToCanvas, set_backgroundImageRef, set_home.
  cbn. rewrite Hc. cbn. now rewrite Hs.
Qed.

End Unmounted.

Lemma unmounted_handlers_idle_witness :
  canvasRef key_screen = None
  /\ handleSubmit (Responded None) key_screen = key_screen
  /\ clearCanvas text_toDataURL text_fillWhite
       {| home := key_screen; backgroundImageRef := None; isDrawing := false;
          penColor := js "#000000" |}
     = {| home := key_screen; backgroundImageRef := None; isDrawing := false;
          penColor := js "#000000" |}.
Proof.
  assert (Hc : canvasRef key_screen = None) by reflexivity.
  destruct (unmounted_handlers_idle text_toDataURL text_fillWhite text_drawImage_scaled
              text_moveTo text_lineTo
              {| home := key_screen; backgroundImageRef := None; isDrawing := false;
                 penColor := js "#000000" |}
              (Responded None) 0 (js "cat") Hc)
    as (_ & _ & _ & H4 & _ & H6 & _).
  split; [exact Hc|]. split; [exact H4 | exact H6].
Defined.

(** ** The parts of a response *)

(** X22: the scan of the response stops at the first part that has
    inline data: that part alone decides.  Its data is the image, and
    when it has none, or an empty one, the response counts as having no
    image, whatever the parts after it hold. *)
Theorem first_inline_part_decides (before rest : list Part) (data : option jsstring) :
  Forall (fun part => inlineData part = None) before ->
  imageData_of (Some (before ++ {| inlineData := Some data |} :: rest)) = data
  /\ has_image (Some (before ++ {| inlineData := Some data |} :: rest))
     = match data with Some d => nonempty d | None => false end
  /\ imageData_of (Some before) = None.
Proof.
  intros Hb.
  assert (H : first_inlineData (before ++ {| inlineData := Some data |} :: rest) = data
              /\ first_inlineData before = None).
  { induction Hb as [|part before Hp _ IH]; [split; reflexivity|].
    cbn [app first_inlineData]. now rewrite Hp. }
  destruct H as (H1 & H2). unfold has_image, imageData_of.
  rewrite H1, H2. auto.
Qed.

Lemma first_inline_part_decides_witness :
  Forall (fun part => inlineData part = None) [{| inlineData := None |}]
  /\ has_image (Some ([{| inlineData := None |}]
                      ++ {| inlineData := Some (Some []) |}
                      :: [{| inlineData := Some (Some (js "iVBOR")) |}])) = false.
Proof.
  assert (H : Forall (fun part => inlineData part = None) [{| inlineData := None |}])
    by (repeat constructor).
  split; [exact H|].
  exact (proj1 (proj2 (first_inline_part_decides _
                         [{| inlineData := Some (Some (js "iVBOR")) |}] (Some []) H))).
Defined.
